(** * Teleoperation command pipeline of the rover web UI

    A shallow embedding of [src/JoystickClean.tsx] (the on-screen joystick)
    and of the command pipeline of [src/App.tsx] (stamping, publishing, the
    gamepad polling loop, the status indicators).

    Conventions.
    - A JavaScript [number] that carries an axis value, a multiplier or a
      velocity is a value of a carrier [num] with the operations the source
      applies to it (class [JSNumber]).  Every function is written once, over
      any carrier.  Two carriers are given: IEEE binary64 ([float], the
      arithmetic the browser runs) and the exact rationals ([Qc], binary64
      without rounding, infinities, NaN and signed zero).  Statements
      about control flow are proved for every carrier, and so is what the
      handlers do on either side of a threshold (the 0.01 gate of the
      joystick, the 0.1 deadzone of the gamepad): such a statement is about
      the test the code evaluates, so it holds of binary64.  The two
      carriers can disagree on a test only next to its threshold: in
      binary64 the square of 10/100 exceeds 0.01, over the rationals it
      equals it.  Statements that need the order or the algebra of the
      numbers (the easing curve, bounds on the published velocities, axes
      inside the deadzone) are proved over [Qc].
    - [Date.now()] is an integer number of milliseconds: a [Z].
    - React refs and state are fields of one record [World].  The handlers
      are closures of one render: they see the multipliers of that render
      ([Section Render]); a change of a multiplier, which re-runs the effect,
      is not an event of this model.
    - [requestAnimationFrame] is a count of the callbacks requested for the
      next frame; a frame runs those and collects what they request.
    - The diagnostic terminal ([logDebug], [joystickLogRef]) and the sensor
      subscriptions write nothing the pipeline reads and are left out of the
      pipeline model.  They are modelled beside it: the page with its
      terminal, sliders and re-renders in [Full] (which erases to the
      pipeline model), the sensor handlers in [Sensors], the camera tiles in
      [Streams], the status dots in [Render]. *)

From Stdlib Require Import ZArith QArith Qabs Qcanon Qcabs Floats Bool List String Lia Lqa.
Import ListNotations.
Open Scope Z_scope.

(* ------------------------------------------------------------------ *)
(** ** JavaScript numbers *)

Class JSNumber (num : Type) : Type := {
  lit_0 : num;                    (* 0 *)
  lit_1 : num;                    (* 1 *)
  lit_100 : num;                  (* 100 *)
  lit_0_01 : num;                 (* 0.01 *)
  lit_0_1 : num;                  (* 0.1 *)
  neg : num -> num;               (* unary minus *)
  mul : num -> num -> num;        (* a * b *)
  div : num -> num -> num;        (* a / b *)
  Math_abs : num -> num;          (* Math.abs *)
  lt : num -> num -> bool         (* a < b *)
}.

Section Derived.
Context {num : Type} `{JSNumber num}.

(** [a > b] *)
Definition gt (a b : num) : bool := lt b a.

(** [Math.sign]: 1 on positive numbers, -1 on negative ones, the argument
    itself otherwise (zero of either sign, NaN). *)
Definition Math_sign (x : num) : num :=
  if lt lit_0 x then lit_1
  else if lt x lit_0 then neg lit_1
  else x.

(** ToBoolean on a number: false on zero of either sign and on NaN. *)
Definition truthy (x : num) : bool := lt x lit_0 || lt lit_0 x.
End Derived.

Definition Qcltb (a b : Qc) : bool :=
  match (a ?= b)%Qc with Lt => true | _ => false end.

#[export] Instance exact : JSNumber Qc := {|
  lit_0 := Q2Qc 0;
  lit_1 := Q2Qc 1;
  lit_100 := Q2Qc 100;
  lit_0_01 := Q2Qc (1 # 100);
  lit_0_1 := Q2Qc (1 # 10);
  neg := Qcopp;
  mul := Qcmult;
  div := Qcdiv;
  Math_abs := Qcabs;
  lt := Qcltb
|}.

#[export] Instance binary64 : JSNumber float := {|
  lit_0 := 0%float;
  lit_1 := 1%float;
  lit_100 := 100%float;
  lit_0_01 := 0x1.47ae147ae147bp-7%float;   (* the double nearest to 0.01 *)
  lit_0_1 := 0x1.999999999999ap-4%float;    (* the double nearest to 0.1 *)
  neg := PrimFloat.opp;
  mul := PrimFloat.mul;
  div := PrimFloat.div;
  Math_abs := PrimFloat.abs;
  lt := PrimFloat.ltb
|}.

(* ------------------------------------------------------------------ *)
(** ** Status indicators *)

(** The texts shown by the two indicators: 'Connecting...', 'Pending...',
    'Connected', 'Idle', 'Active', 'Error', 'Disconnected' (each with its
    emoji in the source). *)
Inductive StatusText : Type :=
| Connecting | Pending | Connected | Idle | Active | Error | Disconnected.

Record Status : Type := { text : StatusText; color : string }.

(* ------------------------------------------------------------------ *)
(** ** JoystickClean.tsx *)

Module Joystick.
Section Joystick.
Context {num : Type} `{JSNumber num}.

(** The move event of the joystick widget: each axis is a number or null. *)
Record MoveEvent : Type := { x : option num; y : option num }.

(** A call of one of the props [onMove], [onEnd], [onStatusUpdate]. *)
Inductive Call : Type :=
| onMove (linear angular : num)
| onEnd
| onStatusUpdate (text : StatusText) (color : option string).

(** [applyEasing], lines 23-29. *)
Definition applyEasing (value : num) : num :=
let normalized := div value lit_100 in
let sign := Math_sign normalized in
let abs := Math_abs normalized in
let eased := mul abs abs in
mul sign eased.

(** [handleMove], lines 31-48.  [now] is what [Date.now()] returns,
  [lastMoveTime] the content of the ref; the result is the new content of
  the ref and the calls made, in order. *)
Definition handleMove (linearMul angularMul : num) (event : MoveEvent)
  (now lastMoveTime : Z) : Z * list Call :=
match x event, y event with
| Some ex, Some ey =>
    if now - lastMoveTime <? 30 then (lastMoveTime, [])
    else
      let easedY := applyEasing ey in
      let easedX := applyEasing ex in
      let lin := mul easedY linearMul in
      let ang := mul (neg easedX) angularMul in
      if gt (Math_abs lin) lit_0_01 || gt (Math_abs ang) lit_0_01
      then (now, [onMove lin ang; onStatusUpdate Active None])
      else (now, [])
| _, _ => (lastMoveTime, [])
end.

(** [handleStop], lines 50-53. *)
Definition handleStop : list Call :=
[onEnd; onStatusUpdate Idle (Some "#ccc"%string)].
End Joystick.
Arguments MoveEvent : clear implicits.
Arguments Call : clear implicits.
End Joystick.

(* ------------------------------------------------------------------ *)
(** ** App.tsx: messages *)

Record Stamp : Type := { sec : Z; nanosec : Z }.
Record Header : Type := { frame_id : string; stamp : Stamp }.

Section Messages.
Context {num : Type} `{JSNumber num}.

Record Vector3 : Type := { x : num; y : num; z : num }.
Record Twist : Type := { linear : Vector3; angular : Vector3 }.
Record TwistStamped : Type := { header : Header; twist : Twist }.

(** [getROSTimestamp], lines 77-83, on the value [now] of [Date.now()]:
    [Math.floor(now / 1000)] rounds towards minus infinity ([Z.div]), [%]
    takes the sign of the dividend ([Z.rem]).  Both are exact on the
    integers a clock can read (far below 2^53). *)
Definition getROSTimestamp (now : Z) : Stamp :=
  {| sec := now / 1000; nanosec := Z.rem now 1000 * 1000000 |}.

(** [buildTwistStamped], lines 85-96. *)
Definition buildTwistStamped (linX angZ : num) (now : Z) : TwistStamped :=
  {| header := {| frame_id := "base_link"; stamp := getROSTimestamp now |};
     twist := {| linear := {| x := linX; y := lit_0; z := lit_0 |};
                 angular := {| x := lit_0; y := lit_0; z := angZ |} |} |}.
End Messages.
Arguments Vector3 : clear implicits.
Arguments Twist : clear implicits.
Arguments TwistStamped : clear implicits.

(* ------------------------------------------------------------------ *)
(** ** App.tsx: refs, state and handlers *)

(** [new ROSLIB.Topic({ ros, name, messageType })]. *)
Record Topic : Type := { name : string; messageType : string }.

Definition cmdVel : Topic :=
  {| name := "/cmd_vel"; messageType := "geometry_msgs/msg/TwistStamped" |}.

Section App.
Context {num : Type} `{JSNumber num}.

(** One entry of [navigator.getGamepads()]: the two axes the loop reads. *)
Record Gamepad : Type := { axes0 : num; axes1 : num }.

(** The refs and state of [App] and of the joystick it renders, with the
    part of the browser they act on. *)
Record World : Type := {
  clock : Z;                        (* what Date.now() returns *)
  cmdVelRef : option Topic;         (* cmdVelRef.current *)
  gamepadIdxRef : option nat;       (* gamepadIdxRef.current *)
  lastMoveTime : Z;                 (* lastMoveTime.current (joystick) *)
  webStatus : Status;               (* webStatus, webStatusColor *)
  twistStatus : Status;             (* twistStatus, twistStatusColor *)
  listening : bool;                 (* the effect has registered its listeners *)
  rafQueue : nat;                   (* pollGamepad callbacks requested for the next frame *)
  outbox : list (TwistStamped num)       (* messages handed to cmdVel.publish, latest first *)
}.

Definition set_clock (t : Z) (w : World) : World :=
  {| clock := t; cmdVelRef := cmdVelRef w; gamepadIdxRef := gamepadIdxRef w;
     lastMoveTime := lastMoveTime w; webStatus := webStatus w;
     twistStatus := twistStatus w; listening := listening w;
     rafQueue := rafQueue w; outbox := outbox w |}.

Definition set_cmdVelRef (t : option Topic) (w : World) : World :=
  {| clock := clock w; cmdVelRef := t; gamepadIdxRef := gamepadIdxRef w;
     lastMoveTime := lastMoveTime w; webStatus := webStatus w;
     twistStatus := twistStatus w; listening := listening w;
     rafQueue := rafQueue w; outbox := outbox w |}.

Definition set_gamepadIdxRef (i : option nat) (w : World) : World :=
  {| clock := clock w; cmdVelRef := cmdVelRef w; gamepadIdxRef := i;
     lastMoveTime := lastMoveTime w; webStatus := webStatus w;
     twistStatus := twistStatus w; listening := listening w;
     rafQueue := rafQueue w; outbox := outbox w |}.

Definition set_lastMoveTime (t : Z) (w : World) : World :=
  {| clock := clock w; cmdVelRef := cmdVelRef w; gamepadIdxRef := gamepadIdxRef w;
     lastMoveTime := t; webStatus := webStatus w;
     twistStatus := twistStatus w; listening := listening w;
     rafQueue := rafQueue w; outbox := outbox w |}.

Definition setWebStatus (s : Status) (w : World) : World :=
  {| clock := clock w; cmdVelRef := cmdVelRef w; gamepadIdxRef := gamepadIdxRef w;
     lastMoveTime := lastMoveTime w; webStatus := s;
     twistStatus := twistStatus w; listening := listening w;
     rafQueue := rafQueue w; outbox := outbox w |}.

Definition setTwistStatus (s : Status) (w : World) : World :=
  {| clock := clock w; cmdVelRef := cmdVelRef w; gamepadIdxRef := gamepadIdxRef w;
     lastMoveTime := lastMoveTime w; webStatus := webStatus w;
     twistStatus := s; listening := listening w;
     rafQueue := rafQueue w; outbox := outbox w |}.

Definition set_listening (b : bool) (w : World) : World :=
  {| clock := clock w; cmdVelRef := cmdVelRef w; gamepadIdxRef := gamepadIdxRef w;
     lastMoveTime := lastMoveTime w; webStatus := webStatus w;
     twistStatus := twistStatus w; listening := b;
     rafQueue := rafQueue w; outbox := outbox w |}.

Definition set_rafQueue (n : nat) (w : World) : World :=
  {| clock := clock w; cmdVelRef := cmdVelRef w; gamepadIdxRef := gamepadIdxRef w;
     lastMoveTime := lastMoveTime w; webStatus := webStatus w;
     twistStatus := twistStatus w; listening := listening w;
     rafQueue := n; outbox := outbox w |}.

Definition set_outbox (l : list (TwistStamped num)) (w : World) : World :=
  {| clock := clock w; cmdVelRef := cmdVelRef w; gamepadIdxRef := gamepadIdxRef w;
     lastMoveTime := lastMoveTime w; webStatus := webStatus w;
     twistStatus := twistStatus w; listening := listening w;
     rafQueue := rafQueue w; outbox := l |}.

(** [updateStatus], lines 67-75: the pair it hands to the two setters;
    [color] defaults to '#00ffcc'. *)
Definition updateStatus (text : StatusText) (color : option string) : Status :=
  {| text := text;
     color := match color with Some c => c | None => "#00ffcc"%string end |}.

(** [cmdVelRef.current.publish(msg)]. *)
Definition publish (msg : TwistStamped num) (w : World) : World :=
  set_outbox (msg :: outbox w) w.

(** [publishTwist], lines 98-102. *)
Definition publishTwist (lx az : num) (w : World) : World :=
  match cmdVelRef w with
  | Some _ => publish (buildTwistStamped lx az (clock w)) w
  | None => w
  end.

(** [handleJoystickMove], lines 104-115 (the log lines apart). *)
Definition handleJoystickMove (linear angular : num) (w : World) : World :=
  publishTwist linear angular w.

(** [handleJoystickEnd], lines 117-120. *)
Definition handleJoystickEnd (w : World) : World :=
  publishTwist lit_0 lit_0 w.

(** [handleJoystickStatusUpdate], lines 122-124. *)
Definition handleJoystickStatusUpdate (text : StatusText)
    (color : option string) (w : World) : World :=
  setTwistStatus (updateStatus text color) w.

(** The props [App] passes to [Joystick]: what a call of each one does. *)
Definition invoke (c : Joystick.Call num) (w : World) : World :=
  match c with
  | Joystick.onMove linear angular => handleJoystickMove linear angular w
  | Joystick.onEnd => handleJoystickEnd w
  | Joystick.onStatusUpdate text color => handleJoystickStatusUpdate text color w
  end.

Definition invokeAll (cs : list (Joystick.Call num)) (w : World) : World :=
  fold_left (fun w c => invoke c w) cs w.

(** [requestAnimationFrame(pollGamepad)]. *)
Definition requestAnimationFrame (w : World) : World :=
  set_rafQueue (S (rafQueue w)) w.

(** [handleGamepadDisconnected], lines 225-228. *)
Definition handleGamepadDisconnected (w : World) : World :=
  set_gamepadIdxRef None w.

(** [handleGamepadConnected], lines 219-223. *)
Definition handleGamepadConnected (index : nat) (w : World) : World :=
  requestAnimationFrame (set_gamepadIdxRef (Some index) w).

Section Render.
(** The multipliers of the render whose closures are running. *)
Variables linearMul angularMul : num.

(** The joystick's [move] and [stop] handlers wired to the props. *)
Definition joystickMove (event : Joystick.MoveEvent num) (w : World) : World :=
  let '(t, calls) :=
    Joystick.handleMove linearMul angularMul event (clock w) (lastMoveTime w) in
  invokeAll calls (set_lastMoveTime t w).

Definition joystickStop (w : World) : World :=
  invokeAll Joystick.handleStop w.

(** The entry of [navigator.getGamepads()] at [gamepadIdxRef.current]:
    [None] stands for a falsy value (null, or undefined when the index is
    null or past the end of the array). *)
Definition tracked (gamepads : list (option Gamepad)) (w : World)
    : option Gamepad :=
  match gamepadIdxRef w with
  | Some i => match nth_error gamepads i with Some gp => gp | None => None end
  | None => None
  end.

(** [pollGamepad], lines 230-248. *)
Definition pollGamepad (gamepads : list (option Gamepad)) (w : World) : World :=
  let w1 :=
    match tracked gamepads w with
    | Some gp =>
        let x := axes0 gp in
        let y := axes1 gp in
        let deadzone := lit_0_1 in
        let lin := if gt (Math_abs y) deadzone then mul (neg y) linearMul else lit_0 in
        let ang := if gt (Math_abs x) deadzone then mul (neg x) angularMul else lit_0 in
        let w' := publishTwist lin ang w in
        if truthy lin || truthy ang
        then setTwistStatus (updateStatus Active None) w'
        else setTwistStatus (updateStatus Idle (Some "#ccc"%string)) w'
    | None => w
    end in
  match gamepadIdxRef w1 with
  | Some _ => requestAnimationFrame w1
  | None => w1
  end.

(** One animation frame: the callbacks requested so far run in turn; what
    they request runs in the next frame. *)
Definition animationFrame (gamepads : list (option Gamepad)) (w : World) : World :=
  Nat.iter (rafQueue w) (pollGamepad gamepads) (set_rafQueue 0 w).

(** The body of the effect, lines 126-251: the topic is created and the
    gamepad listeners are registered. *)
Definition effect (w : World) : World :=
  set_listening true (set_cmdVelRef (Some cmdVel) w).

(** The handlers of the connection's lifecycle, lines 134-153. *)
Definition rosConnection (w : World) : World :=
  setTwistStatus (updateStatus Idle (Some "#ccc"%string))
    (setWebStatus (updateStatus Connected None) w).

Definition rosError (w : World) : World :=
  setTwistStatus (updateStatus Error (Some "#f55"%string))
    (setWebStatus (updateStatus Error (Some "#f55"%string)) w).

Definition rosClose (w : World) : World :=
  setTwistStatus (updateStatus Disconnected (Some "#fa0"%string))
    (setWebStatus (updateStatus Disconnected (Some "#fa0"%string)) w).

(** What the browser delivers. *)
Inductive Event : Type :=
| ClockAt (t : N)                 (* Date.now() returns t from here on *)
| EffectRun                       (* React runs the effect *)
| RosConnection
| RosError
| RosClose
| JoystickMove (event : Joystick.MoveEvent num)
| JoystickStop
| GamepadConnected (index : nat)
| GamepadDisconnected
| AnimationFrame (gamepads : list (option Gamepad)).

(** Handlers registered by the effect run only once it has run. *)
Definition step (w : World) (e : Event) : World :=
  match e with
  | ClockAt t => set_clock (Z.of_N t) w
  | EffectRun => effect w
  | RosConnection => if listening w then rosConnection w else w
  | RosError => if listening w then rosError w else w
  | RosClose => if listening w then rosClose w else w
  | JoystickMove event => joystickMove event w
  | JoystickStop => joystickStop w
  | GamepadConnected index =>
      if listening w then handleGamepadConnected index w else w
  | GamepadDisconnected =>
      if listening w then handleGamepadDisconnected w else w
  | AnimationFrame gamepads => animationFrame gamepads w
  end.

Definition run (es : list Event) (w : World) : World := fold_left step es w.

(** The first render, lines 32-55, before the effect has run. *)
Definition initial : World :=
  {| clock := 0; cmdVelRef := None; gamepadIdxRef := None; lastMoveTime := 0;
     webStatus := {| text := Connecting; color := "#00ffcc" |};
     twistStatus := {| text := Pending; color := "#ccc" |};
     listening := false; rafQueue := 0; outbox := [] |}.

(** The page once the effect has run. *)
Definition mounted : World := effect initial.
End Render.
End App.
Arguments Gamepad : clear implicits.
Arguments World : clear implicits.
Arguments Event : clear implicits.

(* ------------------------------------------------------------------ *)
(** ** Vocabulary of the specification *)

Module Spec.
Open Scope Qc_scope.

(** The sign of an exact number. *)
Definition sgn (n : Qc) : Qc :=
  match n ?= 0 with Lt => - (1) | Eq => 0 | Gt => 1 end.

(** The easing curve in the specification's words: normalise, then
    [sign * magnitude^2]. *)
Definition ease (raw : Qc) : Qc :=
  let n := raw / Q2Qc 100 in
  sgn n * Qcabs n ^ 2.

(** The domain of a raw joystick sample. *)
Definition in_domain (raw : Qc) : Prop := - Q2Qc 100 <= raw <= Q2Qc 100.

(** The noise threshold of the touch path and the gamepad's deadzone. *)
Definition noise : Qc := Q2Qc (1 # 100).
Definition deadzone : Qc := Q2Qc (1 # 10).

Close Scope Qc_scope.

(** The outbound message for a command captured at [ms] milliseconds. *)
Definition wire {num : Type} `{JSNumber num} (lin ang : num) (ms : Z)
    : TwistStamped num :=
  {| header := {| frame_id := "base_link";
                  stamp := {| sec := ms / 1000;
                              nanosec := (ms mod 1000) * 10 ^ 6 |} |};
     twist := {| linear := {| x := lin; y := lit_0; z := lit_0 |};
                 angular := {| x := lit_0; y := lit_0; z := ang |} |} |}.

(** At most one polling loop is pending after the events [es]. *)
Definition single_loop {num : Type} `{JSNumber num} (linearMul angularMul : num)
    (es : list (Event num)) : Prop :=
  (rafQueue (run linearMul angularMul es mounted) <= 1)%nat.

(** A call of [publishTwist] after the events [es] is silent whenever the
    link is not up then: the last link event was not a connection, so the
    link indicator does not read 'Connected'. *)
Definition silent_while_disconnected {num : Type} `{JSNumber num}
    (linearMul angularMul : num) (es : list (Event num)) : Prop :=
  let w := run linearMul angularMul es mounted in
  text (webStatus w) <> Connected ->
  forall lx az, publishTwist lx az w = w.

(** Every connect event of [es], played from [w], finds no polling
    callback pending. *)
Fixpoint connects_when_idle {num : Type} `{JSNumber num}
    (linearMul angularMul : num) (es : list (Event num)) (w : World num) : bool :=
  match es with
  | [] => true
  | e :: es' =>
      match e with
      | GamepadConnected _ => Nat.eqb (rafQueue w) 0
      | _ => true
      end
      && connects_when_idle linearMul angularMul es' (step linearMul angularMul w e)
  end.
End Spec.

(* ------------------------------------------------------------------ *)
(** ** Sample inputs *)

(** A page whose last accepted move is 30 ms old. *)
Definition world0_binary64 : World float :=
  set_clock 1030 (set_lastMoveTime 1000 mounted).

(** The same gamepad at indices 0 and 1, stick at rest inside the deadzone. *)
Definition idle_pad : Gamepad float :=
  {| axes0 := 0x1p-5%float; axes1 := (-0x1p-6)%float |}.

Definition idle_pads : list (option (Gamepad float)) :=
  [Some idle_pad; Some idle_pad].

Definition idle_pad_exact : Gamepad Qc :=
  {| axes0 := Q2Qc (1 # 32); axes1 := Q2Qc (-1 # 64) |}.

Definition idle_pads_exact : list (option (Gamepad Qc)) := [Some idle_pad_exact].

(** One gamepad at index 0, stick pushed half way forward. *)
Definition driven_pad_exact : Gamepad Qc :=
  {| axes0 := Q2Qc (1 # 32); axes1 := Q2Qc (-1 # 2) |}.

Definition driven_pads_exact : list (option (Gamepad Qc)) := [Some driven_pad_exact].

From Stdlib Require Import Sorted Ascii DecimalString DecimalN.

(* ------------------------------------------------------------------ *)
(** ** Vocabulary for the properties of the pipeline *)

Module Range.
Open Scope Qc_scope.

(** A gamepad whose two axes lie in [-1, 1], as the Gamepad API delivers. *)
Definition pad_in_range (gp : Gamepad Qc) : Prop :=
  Qcabs (axes0 gp) <= 1 /\ Qcabs (axes1 gp) <= 1.

(** A joystick sample whose present axes lie in [-100, 100]. *)
Definition sample_in_domain (event : Joystick.MoveEvent Qc) : Prop :=
  match Joystick.x event with Some v => Spec.in_domain v | None => True end
  /\ match Joystick.y event with Some v => Spec.in_domain v | None => True end.

(** An event whose device readings are within the device's range. *)
Definition event_in_range (e : Event Qc) : Prop :=
  match e with
  | JoystickMove event => sample_in_domain event
  | AnimationFrame gamepads =>
      Forall (fun g => match g with Some gp => pad_in_range gp | None => True end)
        gamepads
  | _ => True
  end.

(** A message whose velocities do not exceed the multipliers. *)
Definition within (linearMul angularMul : Qc) (m : TwistStamped Qc) : Prop :=
  Qcabs (x (linear (twist m))) <= linearMul
  /\ Qcabs (z (angular (twist m))) <= angularMul.
End Range.

Module Timing.

(** A trace of clock readings and joystick moves only. *)
Definition touch_only {num : Type} (es : list (Event num)) : Prop :=
  Forall (fun e => match e with
                   | ClockAt _ | JoystickMove _ => True
                   | _ => False
                   end) es.

(** No clock reading of the trace exceeds [T]. *)
Definition clock_bounded {num : Type} (T : Z) (es : list (Event num)) : Prop :=
  Forall (fun e => match e with ClockAt t => Z.of_N t <= T | _ => True end) es.

(** The clock readings of the trace, played from a clock at [c], never go
    back. *)
Fixpoint clock_monotone {num : Type} (c : Z) (es : list (Event num)) : Prop :=
  match es with
  | [] => True
  | ClockAt t :: es' => c <= Z.of_N t /\ clock_monotone (Z.of_N t) es'
  | _ :: es' => clock_monotone c es'
  end.

(** A stamp in nanoseconds. *)
Definition stamp_ns {num : Type} (m : TwistStamped num) : Z :=
  sec (stamp (header m)) * 10 ^ 9 + nanosec (stamp (header m)).

(** The events of the connection's lifecycle. *)
Definition is_ros_event {num : Type} (e : Event num) : bool :=
  match e with RosConnection | RosError | RosClose => true | _ => false end.
End Timing.

(** The two status dots of the header, lines 273 and 277: the class each
    one gets from the colour of its status. *)
Module Render.
(** The text of an indicator as the source writes it, lines 32, 34, 46, 52,
    135-150 and 241-244. *)
Definition label (s : StatusText) : string :=
  match s with
  | Connecting => "Connecting..."
  | Pending => "Pending..."
  | Connected => "Connected ✅"
  | Idle => "Idle ⚪"
  | Active => "Active 🟢"
  | Error => "Error ❌"
  | Disconnected => "Disconnected ⚠️"
  end.

Definition webDot (s : Status) : string :=
  if String.eqb (color s) "#00ffcc" then "bg-cyan-400 shadow" else "bg-red-500".

Definition twistDot (s : Status) : string :=
  if String.eqb (color s) "#00ffcc" then "bg-green-400 shadow" else "bg-gray-500".
End Render.

(** Five strong deflections, 20 ms apart, on a page mounted at time 1000. *)
Definition burst : list (Event float) :=
  [JoystickMove {| Joystick.x := Some 80%float; Joystick.y := Some 0%float |};
   ClockAt 1020;
   JoystickMove {| Joystick.x := Some 80%float; Joystick.y := Some 10%float |};
   ClockAt 1040;
   JoystickMove {| Joystick.x := Some 80%float; Joystick.y := Some 20%float |};
   ClockAt 1060;
   JoystickMove {| Joystick.x := Some 80%float; Joystick.y := Some 30%float |};
   ClockAt 1080;
   JoystickMove {| Joystick.x := Some 80%float; Joystick.y := Some 40%float |}].

Definition mounted_at_1000 : World float := set_clock 1000 mounted.

Module Loops.
(** The connect events of a trace, and a trace without disconnect events. *)
Definition connects {num : Type} (es : list (Event num)) : nat :=
  List.length (filter (fun e => match e with GamepadConnected _ => true | _ => false end) es).

Definition never_disconnected {num : Type} (es : list (Event num)) : Prop :=
  Forall (fun e => e <> GamepadDisconnected) es.
End Loops.

(** Three gamepads plugged in one after the other, with frames between. *)
Definition three_connects : list (Event float) :=
  [GamepadConnected 0; AnimationFrame idle_pads; GamepadConnected 1;
   AnimationFrame idle_pads; AnimationFrame idle_pads; GamepadConnected 0;
   AnimationFrame idle_pads].

(* ------------------------------------------------------------------ *)
(** ** App.tsx in full: terminal, log throttle, multipliers and re-renders

    The page with what the pipeline model leaves out: the terminal and the
    joystick's log throttle, the Robot Status panel, the two multipliers as
    React state, and the polling closures with the multipliers each one
    captured.  A line of the terminal is kept as data: its clock reading
    stands for [toLocaleTimeString()], its numbers for their [toFixed(2)]
    text.  Each handler is written from the source under its own name;
    [world] is the page of the pipeline model. *)

Module Full.

(** What the full page needs of numbers beyond [JSNumber]. *)
Class JSNumberMore (num : Type) : Type := {
  lit_0_5 : num;                    (* 0.5 *)
  sub : num -> num -> num;          (* a - b *)
  Object_is : num -> num -> bool    (* Object.is: how React compares states *)
}.

#[global] Instance exact_more : JSNumberMore Qc := {|
  lit_0_5 := Q2Qc (1 # 2);
  sub := Qcminus;
  Object_is := Qc_eq_bool
|}.

(** [Object.is] on binary64: equal numbers of the same sign of zero, or two
    NaNs. *)
Definition float_is (a b : float) : bool :=
  match PrimFloat.compare a b with
  | FEq => if PrimFloat.is_zero a
           then Bool.eqb (PrimFloat.get_sign a) (PrimFloat.get_sign b)
           else true
  | FNotComparable => PrimFloat.is_nan a && PrimFloat.is_nan b
  | _ => false
  end.

#[global] Instance binary64_more : JSNumberMore float := {|
  lit_0_5 := 0.5%float;
  sub := PrimFloat.sub;
  Object_is := float_is
|}.

Section Page.
Context {num : Type} `{JSNumber num} `{JSNumberMore num}.

(** The messages [logDebug] is called with, and the version line the effect
    writes. *)
Inductive Message : Type :=
| UiVersion
| RosConnected
| RosFailed (detail : string)
| RosClosed
| JoystickCommand (lin ang : num)
| JoystickReleased
| PadConnected (id : string)
| PadDisconnected
| PadCommand (lin ang : num).

(** A line of the terminal: 'Initializing...' or a stamped message. *)
Inductive Line : Type :=
| Initializing
| Stamped (ts : Z) (msg : Message).

(** [joystickLogRef.current]. *)
Record JoystickLog : Type := { t : Z; lin : num; ang : num }.

(** [sensorData]: the fields the page ever sets.  [ros] holds the text the
    handlers write, which is not the indicator's: 'Connected', 'Error' or
    'Disconnected', without the emoji. *)
Record SensorData : Type := { ros : option string; lastUpdate : option Z }.

Record Page : Type := {
  world : World num;
  linearMul : num;                    (* useState(0.5) *)
  angularMul : num;                   (* useState(1.0) *)
  loops : list (num * num);           (* the pollGamepad closures requested for the
                                         next frame, each with the multipliers of
                                         the render that created it *)
  terminalOutput : list Line;         (* oldest line first *)
  joystickLogRef : JoystickLog;
  sensorData : SensorData
}.

Definition set_world (w : World num) (p : Page) : Page :=
  {| world := w; linearMul := linearMul p; angularMul := angularMul p;
     loops := loops p; terminalOutput := terminalOutput p;
     joystickLogRef := joystickLogRef p; sensorData := sensorData p |}.

Definition set_linearMul (v : num) (p : Page) : Page :=
  {| world := world p; linearMul := v; angularMul := angularMul p;
     loops := loops p; terminalOutput := terminalOutput p;
     joystickLogRef := joystickLogRef p; sensorData := sensorData p |}.

Definition set_angularMul (v : num) (p : Page) : Page :=
  {| world := world p; linearMul := linearMul p; angularMul := v;
     loops := loops p; terminalOutput := terminalOutput p;
     joystickLogRef := joystickLogRef p; sensorData := sensorData p |}.

Definition set_loops (l : list (num * num)) (p : Page) : Page :=
  {| world := world p; linearMul := linearMul p; angularMul := angularMul p;
     loops := l; terminalOutput := terminalOutput p;
     joystickLogRef := joystickLogRef p; sensorData := sensorData p |}.

Definition setTerminalOutput (l : list Line) (p : Page) : Page :=
  {| world := world p; linearMul := linearMul p; angularMul := angularMul p;
     loops := loops p; terminalOutput := l;
     joystickLogRef := joystickLogRef p; sensorData := sensorData p |}.

Definition set_joystickLogRef (j : JoystickLog) (p : Page) : Page :=
  {| world := world p; linearMul := linearMul p; angularMul := angularMul p;
     loops := loops p; terminalOutput := terminalOutput p;
     joystickLogRef := j; sensorData := sensorData p |}.

Definition setSensorData (s : SensorData) (p : Page) : Page :=
  {| world := world p; linearMul := linearMul p; angularMul := angularMul p;
     loops := loops p; terminalOutput := terminalOutput p;
     joystickLogRef := joystickLogRef p; sensorData := s |}.

(** [logDebug], lines 57-65: one stamped line after the previous ones (the
    scrolling of the text area apart). *)
Definition logDebug (msg : Message) (p : Page) : Page :=
  setTerminalOutput (terminalOutput p ++ [Stamped (clock (world p)) msg]) p.

(** [handleJoystickMove], lines 104-115. *)
Definition handleJoystickMove (linear angular : num) (p : Page) : Page :=
  let p := set_world (publishTwist linear angular (world p)) p in
  let now := clock (world p) in
  let last := joystickLogRef p in
  let linDelta := Math_abs (sub linear (lin last)) in
  let angDelta := Math_abs (sub angular (ang last)) in
  if (100 <? now - t last) || gt linDelta lit_0_01 || gt angDelta lit_0_01
  then logDebug (JoystickCommand linear angular)
         (set_joystickLogRef {| t := now; lin := linear; ang := angular |} p)
  else p.

(** [handleJoystickEnd], lines 117-120. *)
Definition handleJoystickEnd (p : Page) : Page :=
  logDebug JoystickReleased (set_world (publishTwist lit_0 lit_0 (world p)) p).

(** [handleJoystickStatusUpdate], lines 122-124. *)
Definition handleJoystickStatusUpdate (text : StatusText) (color : option string)
    (p : Page) : Page :=
  set_world (setTwistStatus (updateStatus text color) (world p)) p.

(** The props [App] passes to [Joystick]. *)
Definition invoke (c : Joystick.Call num) (p : Page) : Page :=
  match c with
  | Joystick.onMove linear angular => handleJoystickMove linear angular p
  | Joystick.onEnd => handleJoystickEnd p
  | Joystick.onStatusUpdate text color => handleJoystickStatusUpdate text color p
  end.

Definition invokeAll (cs : list (Joystick.Call num)) (p : Page) : Page :=
  fold_left (fun p c => invoke c p) cs p.

(** The joystick's handlers: its props are those of the latest render. *)
Definition joystickMove (event : Joystick.MoveEvent num) (p : Page) : Page :=
  let '(time, calls) :=
    Joystick.handleMove (linearMul p) (angularMul p) event
      (clock (world p)) (lastMoveTime (world p)) in
  invokeAll calls (set_world (set_lastMoveTime time (world p)) p).

Definition joystickStop (p : Page) : Page :=
  invokeAll Joystick.handleStop p.

(** [requestAnimationFrame(pollGamepad)] for the closure that captured the
    multipliers [c]. *)
Definition requestAnimationFrame (c : num * num) (p : Page) : Page :=
  set_loops (loops p ++ [c]) (set_world (requestAnimationFrame (world p)) p).

(** [handleGamepadConnected], lines 219-223, of the effect that ran last:
    its closure holds the multipliers of that render, which are the current
    ones, since every change of a multiplier runs the effect again. *)
Definition handleGamepadConnected (index : nat) (id : string) (p : Page) : Page :=
  let p := set_world (set_gamepadIdxRef (Some index) (world p)) p in
  let p := logDebug (PadConnected id) p in
  requestAnimationFrame (linearMul p, angularMul p) p.

(** [handleGamepadDisconnected], lines 225-228. *)
Definition handleGamepadDisconnected (p : Page) : Page :=
  logDebug PadDisconnected (set_world (set_gamepadIdxRef None (world p)) p).

(** [pollGamepad], lines 230-248, of the closure that captured [c]. *)
Definition pollGamepad (c : num * num) (gamepads : list (option (Gamepad num)))
    (p : Page) : Page :=
  let p1 :=
    match tracked gamepads (world p) with
    | Some gp =>
        let x := axes0 gp in
        let y := axes1 gp in
        let deadzone := lit_0_1 in
        let lin := if gt (Math_abs y) deadzone then mul (neg y) (fst c) else lit_0 in
        let ang := if gt (Math_abs x) deadzone then mul (neg x) (snd c) else lit_0 in
        let p' := set_world (publishTwist lin ang (world p)) p in
        if truthy lin || truthy ang
        then logDebug (PadCommand lin ang)
               (set_world (setTwistStatus (updateStatus Active None) (world p')) p')
        else set_world
               (setTwistStatus (updateStatus Idle (Some "#ccc"%string)) (world p')) p'
    | None => p
    end in
  match gamepadIdxRef (world p1) with
  | Some _ => requestAnimationFrame c p1
  | None => p1
  end.

(** One animation frame: the closures requested so far run in turn. *)
Definition animationFrame (gamepads : list (option (Gamepad num))) (p : Page) : Page :=
  fold_left (fun p c => pollGamepad c gamepads p) (loops p)
    (set_loops [] (set_world (set_rafQueue 0 (world p)) p)).

(** The body of the effect, lines 126-251: besides the topic and the
    listeners, it replaces the terminal by the version line and
    'Initializing...'. *)
Definition effect (p : Page) : Page :=
  setTerminalOutput [Stamped (clock (world p)) UiVersion; Initializing]
    (set_world (effect (world p)) p).

(** The handlers of the connection's lifecycle, lines 134-153. *)
Definition rosConnection (p : Page) : Page :=
  let p := set_world (rosConnection (world p)) p in
  let p := logDebug RosConnected p in
  setSensorData {| ros := Some "Connected"%string; lastUpdate := Some (clock (world p)) |} p.

Definition rosError (detail : string) (p : Page) : Page :=
  let p := set_world (rosError (world p)) p in
  let p := logDebug (RosFailed detail) p in
  setSensorData {| ros := Some "Error"%string; lastUpdate := Some (clock (world p)) |} p.

Definition rosClose (p : Page) : Page :=
  let p := set_world (rosClose (world p)) p in
  let p := logDebug RosClosed p in
  setSensorData {| ros := Some "Disconnected"%string; lastUpdate := Some (clock (world p)) |} p.

(** [setLinearMul] and [setAngularMul] from the sliders, lines 298 and 305:
    a value that differs from the state re-renders the page, and since the
    multipliers are the effect's dependencies React cleans the effect up
    and runs it again; an equal value does nothing.  The frames already
    requested are not cancelled by the cleanup. *)
Definition setLinearMul (v : num) (p : Page) : Page :=
  if Object_is v (linearMul p) then p else effect (set_linearMul v p).

Definition setAngularMul (v : num) (p : Page) : Page :=
  if Object_is v (angularMul p) then p else effect (set_angularMul v p).

(** What the browser delivers. *)
Inductive Event : Type :=
| ClockAt (time : N)
| EffectRun
| RosConnection
| RosError (detail : string)
| RosClose
| JoystickMove (event : Joystick.MoveEvent num)
| JoystickStop
| GamepadConnected (index : nat) (id : string)
| GamepadDisconnected
| AnimationFrame (gamepads : list (option (Gamepad num)))
| SliderLinear (v : num)
| SliderAngular (v : num).

Definition step (p : Page) (e : Event) : Page :=
  match e with
  | ClockAt time => set_world (set_clock (Z.of_N time) (world p)) p
  | EffectRun => effect p
  | RosConnection => if listening (world p) then rosConnection p else p
  | RosError detail => if listening (world p) then rosError detail p else p
  | RosClose => if listening (world p) then rosClose p else p
  | JoystickMove event => joystickMove event p
  | JoystickStop => joystickStop p
  | GamepadConnected index id =>
      if listening (world p) then handleGamepadConnected index id p else p
  | GamepadDisconnected =>
      if listening (world p) then handleGamepadDisconnected p else p
  | AnimationFrame gamepads => animationFrame gamepads p
  | SliderLinear v => setLinearMul v p
  | SliderAngular v => setAngularMul v p
  end.

Definition run (es : list Event) (p : Page) : Page := fold_left step es p.

(** The first render, lines 32-55. *)
Definition initial : Page :=
  {| world := initial; linearMul := lit_0_5; angularMul := lit_1; loops := [];
     terminalOutput := [Initializing];
     joystickLogRef := {| t := 0; lin := lit_0; ang := lit_0 |};
     sensorData := {| ros := None; lastUpdate := None |} |}.

End Page.
Arguments Message : clear implicits.
Arguments Line : clear implicits.
Arguments JoystickLog : clear implicits.
Arguments Page : clear implicits.
Arguments Event : clear implicits.
End Full.

(** The event of the pipeline model a full event stands for; a slider event
    has none. *)
Definition erase {num : Type} (e : Full.Event num) : option (Event num) :=
  match e with
  | Full.ClockAt time => Some (ClockAt time)
  | Full.EffectRun => Some EffectRun
  | Full.RosConnection => Some RosConnection
  | Full.RosError _ => Some RosError
  | Full.RosClose => Some RosClose
  | Full.JoystickMove event => Some (JoystickMove event)
  | Full.JoystickStop => Some JoystickStop
  | Full.GamepadConnected index _ => Some (GamepadConnected index)
  | Full.GamepadDisconnected => Some GamepadDisconnected
  | Full.AnimationFrame gamepads => Some (AnimationFrame gamepads)
  | Full.SliderLinear _ | Full.SliderAngular _ => None
  end.

Fixpoint erase_all {num : Type} (es : list (Full.Event num)) : list (Event num) :=
  match es with
  | [] => []
  | e :: es' =>
      match erase e with
      | Some e' => e' :: erase_all es'
      | None => erase_all es'
      end
  end.

(** A trace in which no slider is moved. *)
Definition sliders_untouched {num : Type} (es : list (Full.Event num)) : Prop :=
  Forall (fun e => erase e <> None) es.

(** The command a polling closure computes from a gamepad: the deadzone
    and the scaling of lines 235-237 with the multipliers [c] it captured. *)
Definition padCommand {num : Type} `{JSNumber num} (gp : Gamepad num) (c : num * num)
    : num * num :=
  (if gt (Math_abs (axes1 gp)) lit_0_1 then mul (neg (axes1 gp)) (fst c) else lit_0,
   if gt (Math_abs (axes0 gp)) lit_0_1 then mul (neg (axes0 gp)) (snd c) else lit_0).

(** A page all of whose closures hold the multipliers [linearMul] and
    [angularMul] of the current render. *)
Definition uniform {num : Type} (linearMul angularMul : num) (p : Full.Page num)
    : Prop :=
  Full.linearMul p = linearMul /\ Full.angularMul p = angularMul
  /\ Full.loops p = repeat (linearMul, angularMul) (rafQueue (Full.world p)).

(** A session on the full page: mount, link up, a touch command and its
    release, a gamepad that connects and is polled once. *)
Definition full_session : list (Full.Event float) :=
  [Full.EffectRun; Full.ClockAt 1000; Full.RosConnection;
   Full.JoystickMove {| Joystick.x := Some 50%float; Joystick.y := Some 0%float |};
   Full.JoystickStop;
   Full.GamepadConnected 0 "pad";
   Full.AnimationFrame [Some {| axes0 := 0%float; axes1 := (-0.5)%float |}]].

(** A mounted page polling one gamepad under the default multipliers. *)
Definition polling_page : Full.Page float :=
  Full.run [Full.EffectRun; Full.ClockAt 1000; Full.GamepadConnected 0 "pad"]
    Full.initial.

Definition pushed_pads : list (option (Gamepad float)) :=
  [Some {| axes0 := 0%float; axes1 := (-0.5)%float |}].

(** The joystick held at one command: [handleJoystickMove] called with it
    at each of the clock readings in turn. *)
Definition hold {num : Type} `{JSNumber num} `{Full.JSNumberMore num}
    (linear angular : num) (readings : list N) (p : Full.Page num) : Full.Page num :=
  fold_left
    (fun p t =>
       Full.handleJoystickMove linear angular
         (Full.set_world (set_clock (Z.of_N t) (Full.world p)) p))
    readings p.



(** After the effect has run: a gamepad connects, the linear slider is
    dragged to 0, and the gamepad connects again, so that a loop holding
    0.5 and a loop holding 0 are scheduled. *)
Definition two_scalings : list (Full.Event float) :=
  [Full.ClockAt 1000; Full.GamepadConnected 0 "pad"; Full.SliderLinear 0%float;
   Full.GamepadConnected 0 "pad"].

(** The values a range input with min 0 and step 0.1 can deliver up to
    [max] tenths, lines 298 and 305: [parseFloat] of the decimal text of
    k/10, which is the double nearest to k/10. *)
Definition slider_positions (max : nat) : list float :=
  map (fun k => PrimFloat.div (PrimFloat.of_uint63 (Uint63.of_nat k)) 10%float)
    (seq 0 (S max)).

(** An event of the full page whose device readings are within the
    device's range and whose slider value lies between 0 and the bound
    given for that slider. *)
Definition full_event_in_range (L A : Qc) (e : Full.Event Qc) : Prop :=
  match e with
  | Full.SliderLinear v => (0 <= v <= L)%Qc
  | Full.SliderAngular v => (0 <= v <= A)%Qc
  | _ => match erase e with
         | Some e' => Range.event_in_range e'
         | None => True
         end
  end.

(** A pair of multipliers between 0 and the bounds. *)
Definition multipliers_within (L A : Qc) (c : Qc * Qc) : Prop :=
  (0 <= fst c <= L)%Qc /\ (0 <= snd c <= A)%Qc.

(** A session on the full page with both sliders moved while a gamepad is
    polled and the joystick is used. *)
Definition slider_session : list (Full.Event Qc) :=
  [Full.EffectRun; Full.ClockAt 1000; Full.GamepadConnected 0 "pad";
   Full.AnimationFrame driven_pads_exact;
   Full.SliderLinear (Q2Qc 2); Full.SliderAngular (Q2Qc (1 # 10));
   Full.JoystickMove {| Joystick.x := Some (Q2Qc 100); Joystick.y := Some (Q2Qc (-100)) |};
   Full.AnimationFrame driven_pads_exact; Full.GamepadConnected 0 "pad";
   Full.AnimationFrame driven_pads_exact].

(* ------------------------------------------------------------------ *)
(** ** App.tsx: the sensor subscriptions, lines 163-214 *)

Module Sensors.
Local Open Scope string_scope.

Section Sensors.
Context {num : Type}.

#[local] Unset Elimination Schemes.

(** What [JSON.parse] returns. *)
Inductive JSON : Type :=
| JNull
| JBool (b : bool)
| JNumber (n : num)
| JString (s : string)
| JArray (items : list JSON)
| JObject (members : list (string * JSON)).

#[local] Set Elimination Schemes.

(** The text of a number ([String(n)]) and [n.toFixed(2)]: the two number
    formats of the language, taken as given. *)
Variable numberToString : num -> string.
Variable toFixed2 : num -> string.

(** The dash the page shows for a missing reading. *)
Definition dash : string := "—".

(** [String(v)], which is also how a template literal prints [v]: an array
    prints its elements separated by commas, null ones as nothing. *)
Fixpoint toString (v : JSON) : string :=
  match v with
  | JNull => "null"
  | JBool true => "true"
  | JBool false => "false"
  | JNumber n => numberToString n
  | JString s => s
  | JArray items =>
      (fix join (l : list JSON) : string :=
         match l with
         | [] => EmptyString
         | a :: rest =>
             let first := match a with JNull => EmptyString | _ => toString a end in
             match rest with
             | [] => first
             | _ => first ++ "," ++ join rest
             end
         end) items
  | JObject _ => "[object Object]"
  end.

(** The member [key] of a parsed object: of duplicate keys the last one
    counts. *)
Fixpoint lookup (key : string) (members : list (string * JSON)) : option JSON :=
  match members with
  | [] => None
  | (k, v) :: rest =>
      match lookup key rest with
      | Some v' => Some v'
      | None => if String.eqb k key then Some v else None
      end
  end.

(** [data.key] for one of the keys the page reads: [None] when the access
    throws (on null), [Some None] when it gives undefined. *)
Definition member (key : string) (data : JSON) : option (option JSON) :=
  match data with
  | JNull => None
  | JObject members => Some (lookup key members)
  | _ => Some None
  end.

(** [soilData] and [bmeData]: a field is [None] until it is first set. *)
Record SoilData : Type := {
  ph : option string; moist : option string; k : option string;
  n : option string; p : option string; k2 : option string
}.

Record BMEData : Type := {
  temp : option string; humidity : option string; pressure : option string;
  gas : option string; altitude : option string
}.

(** [data.key !== undefined ? String(data.key) + suffix : dash]. *)
Definition soilField (key suffix : string) (data : JSON) : option string :=
  match member key data with
  | None => None
  | Some (Some v) => Some (toString v ++ suffix)
  | Some None => Some dash
  end.

(** The handler of '/soil_sensor', lines 170-184.  [parsed] is the result
    of [JSON.parse(msg.data)], [None] when it throws; whatever throws inside
    the [try] leaves the state as it was. *)
Definition soilHandler (parsed : option JSON) (prev : SoilData) : SoilData :=
  match parsed with
  | None => prev
  | Some data =>
      match soilField "ph" EmptyString data, soilField "moist" "%" data,
            soilField "k" EmptyString data, soilField "n" EmptyString data,
            soilField "p" EmptyString data, soilField "k2" EmptyString data with
      | Some a, Some b, Some c, Some d, Some e, Some f =>
          {| ph := Some a; moist := Some b; k := Some c;
             n := Some d; p := Some e; k2 := Some f |}
      | _, _, _, _, _, _ => prev
      end
  end.

(** What reaches the handler of '/bme680': [msg.data] when it is an array
    already, else the result of [JSON.parse(msg.data)]. *)
Inductive BmeInput : Type :=
| DataArray (items : list JSON)
| DataText (parsed : option JSON).

(** [arr[i] !== undefined ? arr[i].toFixed(2) + unit : dash]: [None] when
    [toFixed] is missing on the element and the call throws. *)
Definition bmeField (i : nat) (unit : string) (arr : list JSON) : option string :=
  match nth_error arr i with
  | None => Some dash
  | Some (JNumber x) => Some (toFixed2 x ++ unit)
  | Some _ => None
  end.

(** The handler of '/bme680', lines 196-211. *)
Definition bmeHandler (input : BmeInput) (prev : BMEData) : BMEData :=
  let arr :=
    match input with
    | DataArray items => Some (JArray items)
    | DataText parsed => parsed
    end in
  match arr with
  | Some (JArray items) =>
      match bmeField 0 " °C" items, bmeField 1 " %" items, bmeField 2 " hPa" items,
            bmeField 3 EmptyString items, bmeField 4 " m" items with
      | Some a, Some b, Some c, Some d, Some e =>
          {| temp := Some a; humidity := Some b; pressure := Some c;
             gas := Some d; altitude := Some e |}
      | _, _, _, _, _ => prev
      end
  | _ => prev
  end.

(** [value || dash] in the panels, lines 336-350. *)
Definition shown (value : option string) : string :=
  match value with
  | Some s => match s with EmptyString => dash | _ => s end
  | None => dash
  end.

(** The four lines of the Soil Sensor panel and the five of the BME680
    panel. *)
Definition soilPanel (d : SoilData) : list string :=
  [shown (ph d); shown (moist d); shown (n d); shown (p d)].

Definition bmePanel (d : BMEData) : list string :=
  [shown (temp d); shown (humidity d); shown (pressure d); shown (gas d);
   shown (altitude d)].

(** The readings by field, in the order of the source. *)
Definition soilFields (d : SoilData) : list (string * option string) :=
  [("ph", ph d); ("moist", moist d); ("k", k d); ("n", n d); ("p", p d);
   ("k2", k2 d)].

Definition bmeFields (d : BMEData) : list (option string) :=
  [temp d; humidity d; pressure d; gas d; altitude d].

(** The array the BME680 handler works on, if there is one. *)
Definition bmeItems (input : BmeInput) : option (list JSON) :=
  match input with
  | DataArray items => Some items
  | DataText (Some (JArray items)) => Some items
  | DataText _ => None
  end.

(** An element on which [toFixed] can be called. *)
Definition is_number (v : JSON) : bool :=
  match v with JNumber _ => true | _ => false end.
End Sensors.
Arguments JSON : clear implicits.
Arguments BmeInput : clear implicits.
End Sensors.

(* ------------------------------------------------------------------ *)
(** ** App.tsx: the camera tiles, lines 44-49 and 318-330 *)

Module Streams.
Local Open Scope string_scope.

Record Feed : Type := { title : string; topic : string; compressed : bool }.

(** [cameraFeeds], lines 44-49. *)
Definition cameraFeeds : list Feed :=
  [{| title := "Camera 1"; topic := "/rishi/cam"; compressed := false |};
   {| title := "Camera 2"; topic := "/rishi/cam"; compressed := true |};
   {| title := "Camera 3"; topic := "/rishi/cam"; compressed := true |};
   {| title := "Camera 4"; topic := "/rishi/cam"; compressed := true |}].

(** A non-negative integer in a template literal: its decimal digits. *)
Definition decimal (n : N) : string := NilEmpty.string_of_uint (N.to_uint n).

(** [streamUrl] of the tile at [idx], lines 319-320; [streamNonce] is a
    reading of [Date.now()]. *)
Definition streamUrl (streamNonce : N) (idx : nat) (cam : Feed) : string :=
  let transport := if compressed cam then "ros_compressed" else "mjpeg" in
  "http://localhost:8080/stream?topic=" ++ topic cam ++ "&type=" ++ transport
  ++ "&t=" ++ decimal streamNonce ++ "-cam" ++ decimal (N.of_nat (idx + 1)).

(** [Array.prototype.map] with the index, counting from [idx]. *)
Fixpoint mapi {A B : Type} (f : A -> nat -> B) (idx : nat) (l : list A) : list B :=
  match l with
  | [] => []
  | a :: rest => f a idx :: mapi f (S idx) rest
  end.

(** [feeds.slice(0,4).map((cam, idx) => streamUrl)]. *)
Definition streamUrls (streamNonce : N) (feeds : list Feed) : list string :=
  mapi (fun cam idx => streamUrl streamNonce idx cam) 0 (firstn 4 feeds).

(** The last character of a string. *)
Fixpoint last_char (s : string) : option Ascii.ascii :=
  match s with
  | EmptyString => None
  | String c rest =>
      match last_char rest with
      | Some c' => Some c'
      | None => Some c
      end
  end.
End Streams.

(* ------------------------------------------------------------------ *)
(** ** Exact numbers: order and sign *)

Section ExactFacts.
Open Scope Qc_scope.

Lemma Qcltb_true (a b : Qc) : Qcltb a b = true <-> a < b.
Proof.
  unfold Qcltb. rewrite Qclt_alt. destruct (a ?= b); split; congruence.
Qed.

Lemma Qcltb_false (a b : Qc) : Qcltb a b = false <-> b <= a.
Proof.
  split; intros E.
  - apply Qcnot_lt_le. intros L. apply Qcltb_true in L. congruence.
  - destruct (Qcltb a b) eqn:L; [ | reflexivity ].
    apply Qcltb_true in L. exfalso. exact (Qcle_not_lt _ _ E L).
Qed.

Lemma gt_true (a b : Qc) : gt a b = true <-> b < a.
Proof. apply Qcltb_true. Qed.

Lemma gt_false (a b : Qc) : gt a b = false <-> a <= b.
Proof. apply Qcltb_false. Qed.

Lemma sgn_neg (n : Qc) : n < 0 -> Spec.sgn n = - (1).
Proof. unfold Spec.sgn. intros L. now rewrite (proj1 (Qclt_alt n 0) L). Qed.

Lemma sgn_pos (n : Qc) : 0 < n -> Spec.sgn n = 1.
Proof. unfold Spec.sgn. intros L. now rewrite (proj1 (Qcgt_alt n 0) L). Qed.

(** [Math.sign] over the exact numbers is the sign function. *)
Lemma Math_sign_sgn (n : Qc) : Math_sign n = Spec.sgn n.
Proof.
  unfold Math_sign. cbn [lt exact lit_0 lit_1 neg].
  destruct (Qcltb 0 n) eqn:P.
  - apply Qcltb_true in P. now rewrite sgn_pos.
  - destruct (Qcltb n 0) eqn:M.
    + apply Qcltb_true in M. now rewrite sgn_neg.
    + apply Qcltb_false in P, M.
      assert (n = 0) as -> by (apply Qcle_antisym; assumption).
      reflexivity.
Qed.

Lemma sgn_mul_abs (n : Qc) : Spec.sgn n * Qcabs n = n.
Proof.
  destruct (Qc_dec n 0) as [[L | G] | E].
  - rewrite sgn_neg, Qcabs_neg by auto using Qclt_le_weak. ring.
  - rewrite sgn_pos, Qcabs_pos by auto using Qclt_le_weak. ring.
  - subst n. reflexivity.
Qed.

(** The source's [sign * (abs * abs)] is the specification's curve. *)
Lemma applyEasing_ease (raw : Qc) : Joystick.applyEasing raw = Spec.ease raw.
Proof.
  unfold Joystick.applyEasing, Spec.ease. cbn [mul div exact lit_100 Math_abs].
  rewrite Math_sign_sgn. simpl Qcpower. ring.
Qed.

Lemma ease_alt (raw : Qc) :
  Spec.ease raw = raw / Q2Qc 100 * Qcabs (raw / Q2Qc 100).
Proof.
  unfold Spec.ease. cbv zeta. rewrite <- (sgn_mul_abs (raw / Q2Qc 100)) at 3.
  simpl Qcpower. ring.
Qed.

Lemma Q_signed_square_mono (a b : Q) : (a <= b)%Q -> (a * Qabs a <= b * Qabs b)%Q.
Proof.
  intros Hab. apply (Qabs_case a); apply (Qabs_case b); intros; nra.
Qed.

Lemma Qc_signed_square_mono (a b : Qc) : a <= b -> a * Qcabs a <= b * Qcabs b.
Proof.
  unfold Qcle, Qcmult, Qcabs, Q2Qc; cbn [this]. intros Hab.
  rewrite !Qred_correct. now apply Q_signed_square_mono.
Qed.

Lemma ease_mono (a b : Qc) : a <= b -> Spec.ease a <= Spec.ease b.
Proof.
  intros Hab. rewrite !ease_alt. apply Qc_signed_square_mono.
  unfold Qcdiv. apply Qcmult_le_compat_r; [ assumption | ].
  unfold Qcle; cbn. discriminate.
Qed.



End ExactFacts.

(* ------------------------------------------------------------------ *)
(** ** Binary64: [<=] excludes [>] *)

Lemma SFcompare_antisym (a b : SpecFloat.spec_float) (c : comparison) :
  SpecFloat.SFcompare a b = Some c -> SpecFloat.SFcompare b a = Some (CompOpp c).
Proof.
  destruct a as [sa | sa | | sa ma ea], b as [sb | sb | | sb mb eb]; cbn;
    try discriminate;
    try (destruct sa; intros E; injection E as <-; reflexivity);
    try (destruct sb; intros E; injection E as <-; reflexivity);
    try (destruct sa, sb; intros E; injection E as <-; reflexivity).
  intros E. injection E as <-. f_equal.
  rewrite (Z.compare_antisym ea eb).
  change (Pos.compare_cont Eq mb ma) with (Pos.compare_cont (CompOpp Eq) mb ma).
  rewrite <- (Pos.compare_cont_antisym ma mb Eq).
  destruct sa, sb; try reflexivity;
    destruct (ea ?= eb) eqn:C; cbn; try reflexivity;
    destruct (Pos.compare_cont Eq ma mb); reflexivity.
Qed.

(** In binary64 [a <= b] and [b < a] never hold together (both fail when
    one of the two is NaN). *)
Lemma float_le_not_gt (a b : float) :
  PrimFloat.leb a b = true -> PrimFloat.ltb b a = false.
Proof.
  rewrite leb_spec, ltb_spec. unfold SpecFloat.SFleb, SpecFloat.SFltb.
  destruct (SpecFloat.SFcompare (Prim2SF a) (Prim2SF b)) as [c |] eqn:C;
    [ | discriminate ].
  rewrite (SFcompare_antisym _ _ _ C). now destruct c.
Qed.

(* ------------------------------------------------------------------ *)
(** ** The touch path: magnitude gate *)

Section TouchGate.
Context {num : Type} `{JSNumber num}.

Lemma handleMove_accepted (linearMul angularMul ex ey : num) (now last : Z) :
  30 <= now - last ->
  Joystick.handleMove linearMul angularMul
    {| Joystick.x := Some ex; Joystick.y := Some ey |} now last =
  let lin := mul (Joystick.applyEasing ey) linearMul in
  let ang := mul (neg (Joystick.applyEasing ex)) angularMul in
  if gt (Math_abs lin) lit_0_01 || gt (Math_abs ang) lit_0_01
  then (now, [Joystick.onMove lin ang; Joystick.onStatusUpdate Active None])
  else (now, []).
Proof.
  intros T. unfold Joystick.handleMove. cbn [Joystick.x Joystick.y].
  destruct (Z.ltb_spec (now - last) 30) as [L | _]; [ lia | reflexivity ].
Qed.
End TouchGate.

Section TouchGateExact.
Open Scope Qc_scope.

Lemma above_noise (lin ang : Qc) :
  gt (Qcabs lin) Spec.noise || gt (Qcabs ang) Spec.noise = true
  <-> Spec.noise < Qcabs lin \/ Spec.noise < Qcabs ang.
Proof. now rewrite orb_true_iff, !gt_true. Qed.

Lemma below_noise (lin ang : Qc) :
  gt (Qcabs lin) Spec.noise || gt (Qcabs ang) Spec.noise = false
  <-> Qcabs lin <= Spec.noise /\ Qcabs ang <= Spec.noise.
Proof. now rewrite orb_false_iff, !gt_false. Qed.

(** Scenario A over the exact numbers, for every linearMul. *)
Lemma scenario_A (linearMul : Qc) (now last : Z) :
  (30 <= now - last)%Z ->
  snd (Joystick.handleMove linearMul 1
         {| Joystick.x := Some (Q2Qc 50); Joystick.y := Some 0 |} now last)
  = [Joystick.onMove 0 (- Q2Qc (1 # 4)); Joystick.onStatusUpdate Active None].
Proof.
  intros T. rewrite (handleMove_accepted linearMul 1 (Q2Qc 50) 0 now last T).
  cbv zeta. cbn [mul neg exact].
  replace (Joystick.applyEasing 0 * linearMul) with (Q2Qc 0)
    by (rewrite applyEasing_ease; change (Spec.ease 0) with (Q2Qc 0); ring).
  replace (- Joystick.applyEasing (Q2Qc 50) * 1) with (- Q2Qc (1 # 4))
    by (apply Qc_is_canon; reflexivity).
  reflexivity.
Qed.
End TouchGateExact.

(** C1.  A move event with both axes present that passes the 30 ms
    throttle makes the handler compute [lin = ease(y) * linearMul] and
    [ang = -ease(x) * angularMul]; it calls [onMove lin ang] and then
    signals Active exactly when [|lin| > 0.01] or [|ang| > 0.01], and
    otherwise it calls nothing, so the page's status and outbox stay as
    they were.  This holds in whatever arithmetic carries the numbers, the
    magnitudes being the computed ones and the test the one the handler
    evaluates: in binary64 it is [<] of the doubles, which [<= 0.01] on
    both magnitudes excludes; over the exact numbers it is [<] and [<=] of
    the rationals.  For x = 50, y = 0 and angularMul = 1 the command is
    linear 0, angular -0.25: in binary64 at every position of the linear
    slider, over the exact numbers for every linearMul.  The two
    arithmetics part at x = 10, y = 0, angularMul = 1: the square of the
    double 0.1 exceeds the double 0.01, so the page emits, while the exact
    value 0.01 is not above the threshold. *)
Theorem handleMove_emits_iff_above_noise
    {num : Type} `{JSNumber num} (linearMul angularMul ex ey : num) (w : World num) :
  30 <= clock w - lastMoveTime w ->
  let now := clock w in
  let event := {| Joystick.x := Some ex; Joystick.y := Some ey |} in
  let lin := mul (Joystick.applyEasing ey) linearMul in
  let ang := mul (neg (Joystick.applyEasing ex)) angularMul in
  let above := gt (Math_abs lin) lit_0_01 || gt (Math_abs ang) lit_0_01 in
  let calls := snd (Joystick.handleMove linearMul angularMul event now (lastMoveTime w)) in
  (above = true ->
     calls = [Joystick.onMove lin ang; Joystick.onStatusUpdate Active None]
     /\ joystickMove linearMul angularMul event w =
        setTwistStatus {| text := Active; color := "#00ffcc" |}
          (publishTwist lin ang (set_lastMoveTime now w)))
  /\ (above = false ->
     calls = []
     /\ joystickMove linearMul angularMul event w = set_lastMoveTime now w)
  /\ (In (Joystick.onMove lin ang) calls <-> above = true)
  /\ (forall text color, In (Joystick.onStatusUpdate text color) calls
      <-> (text = Active /\ color = None) /\ above = true)
  /\ (forall a b : float,
        (gt (Math_abs a) lit_0_01 || gt (Math_abs b) lit_0_01 = true
         <-> PrimFloat.ltb 0x1.47ae147ae147bp-7 (PrimFloat.abs a) = true
             \/ PrimFloat.ltb 0x1.47ae147ae147bp-7 (PrimFloat.abs b) = true)
        /\ (PrimFloat.leb (PrimFloat.abs a) 0x1.47ae147ae147bp-7 = true ->
            PrimFloat.leb (PrimFloat.abs b) 0x1.47ae147ae147bp-7 = true ->
            gt (Math_abs a) lit_0_01 || gt (Math_abs b) lit_0_01 = false))
  /\ (forall a b : Qc,
        (gt (Math_abs a) lit_0_01 || gt (Math_abs b) lit_0_01 = true
         <-> (Spec.noise < Qcabs a)%Qc \/ (Spec.noise < Qcabs b)%Qc)
        /\ (gt (Math_abs a) lit_0_01 || gt (Math_abs b) lit_0_01 = false
            <-> (Qcabs a <= Spec.noise)%Qc /\ (Qcabs b <= Spec.noise)%Qc))
  /\ Forall
       (fun position : float =>
          Joystick.handleMove position 1%float
            {| Joystick.x := Some 50%float; Joystick.y := Some 0%float |} 1030 1000
          = (1030, [Joystick.onMove 0%float (-0.25)%float;
                    Joystick.onStatusUpdate Active None]))
       (slider_positions 20)
  /\ (forall (m : Qc) (t last : Z), 30 <= t - last ->
        snd (Joystick.handleMove m 1%Qc
               {| Joystick.x := Some (Q2Qc 50); Joystick.y := Some 0%Qc |} t last)
        = [Joystick.onMove 0%Qc (- Q2Qc (1 # 4))%Qc;
           Joystick.onStatusUpdate Active None])
  /\ Joystick.handleMove 0.5%float 1%float
       {| Joystick.x := Some 10%float; Joystick.y := Some 0%float |} 1030 1000
     = (1030, [Joystick.onMove 0%float (-0x1.47ae147ae147cp-7)%float;
               Joystick.onStatusUpdate Active None])
  /\ Joystick.handleMove (Q2Qc (1 # 2)) 1%Qc
       {| Joystick.x := Some (Q2Qc 10); Joystick.y := Some 0%Qc |} 1030 1000
     = (1030, []).
Proof.
  intros T now event lin ang above calls.
  assert (E := handleMove_accepted linearMul angularMul ex ey now (lastMoveTime w) T).
  cbv zeta in E. fold event lin ang above in E.
  unfold joystickMove. fold now event. subst calls. rewrite E. clear E.
  assert (forall a b : float,
             PrimFloat.leb (PrimFloat.abs a) 0x1.47ae147ae147bp-7 = true ->
             PrimFloat.leb (PrimFloat.abs b) 0x1.47ae147ae147bp-7 = true ->
             @gt float binary64 (Math_abs a) lit_0_01
             || @gt float binary64 (Math_abs b) lit_0_01 = false) as F.
  { intros a b La Lb. apply orb_false_iff. split; now apply float_le_not_gt. }
  assert (Forall
            (fun position : float =>
               Joystick.handleMove position 1%float
                 {| Joystick.x := Some 50%float; Joystick.y := Some 0%float |} 1030 1000
               = (1030, [Joystick.onMove 0%float (-0.25)%float;
                         Joystick.onStatusUpdate Active None]))
            (slider_positions 20)) as S by (vm_compute; repeat constructor).
  destruct above eqn:G; cbn [snd].
  - split; [ intros _; split; reflexivity | ].
    split; [ discriminate | ].
    split; [ split; [ reflexivity | intros _; left; reflexivity ] | ].
    split.
    { intros text color. split.
      - intros [K | [K | []]]; [ discriminate | ].
        injection K as <- <-. auto.
      - intros [[-> ->] _]. right. left. reflexivity. }
    split; [ intros a b; split; [ apply orb_true_iff | apply F ] | ].
    split; [ intros a b; split; [ apply above_noise | apply below_noise ] | ].
    split; [ exact S | ].
    split; [ intros m t last; apply scenario_A | ].
    split; reflexivity.
  - split; [ discriminate | ].
    split; [ intros _; split; reflexivity | ].
    split; [ split; [ intros [] | discriminate ] | ].
    split.
    { intros text color. split; [ intros [] | ]. intros [_ K]. discriminate. }
    split; [ intros a b; split; [ apply orb_true_iff | apply F ] | ].
    split; [ intros a b; split; [ apply above_noise | apply below_noise ] | ].
    split; [ exact S | ].
    split; [ intros m t last; apply scenario_A | ].
    split; reflexivity.
Qed.

Lemma handleMove_emits_iff_above_noise_witness :
  30 <= clock world0_binary64 - lastMoveTime world0_binary64
  /\ joystickMove 0.5%float 1%float
       {| Joystick.x := Some 10%float; Joystick.y := Some 0%float |} world0_binary64
     = setTwistStatus {| text := Active; color := "#00ffcc" |}
         (publishTwist 0%float (-0x1.47ae147ae147cp-7)%float
            (set_lastMoveTime 1030 world0_binary64)).
Proof.
  assert (30 <= clock world0_binary64 - lastMoveTime world0_binary64) as T
      by (cbn; lia).
  split; [ exact T | ].
  pose proof (handleMove_emits_iff_above_noise
                0.5%float 1%float 10%float 0%float world0_binary64 T) as P.
  cbv zeta in P. destruct P as [P _].
  exact (proj2 (P eq_refl)).
Defined.

(* ------------------------------------------------------------------ *)
(** ** The page: what every handler preserves *)

Section WorldFacts.
Context {num : Type} `{JSNumber num}.
Variables linearMul angularMul : num.

#[local] Abbreviation step1 := (step linearMul angularMul).
#[local] Abbreviation runs := (run linearMul angularMul).
#[local] Abbreviation poll := (pollGamepad linearMul angularMul).
#[local] Abbreviation frame := (animationFrame linearMul angularMul).
#[local] Abbreviation move := (joystickMove linearMul angularMul).

Lemma publishTwist_set (t : Topic) (lx az : num) (w : World num) :
  cmdVelRef w = Some t ->
  publishTwist lx az w = publish (buildTwistStamped lx az (clock w)) w.
Proof. unfold publishTwist. now intros ->. Qed.

Lemma publishTwist_null (lx az : num) (w : World num) :
  cmdVelRef w = None -> publishTwist lx az w = w.
Proof. unfold publishTwist. now intros ->. Qed.

(** Fields that publishing leaves alone. *)
Lemma publishTwist_frame (lx az : num) (w : World num) :
  let w' := publishTwist lx az w in
  clock w' = clock w /\ cmdVelRef w' = cmdVelRef w
  /\ gamepadIdxRef w' = gamepadIdxRef w /\ lastMoveTime w' = lastMoveTime w
  /\ webStatus w' = webStatus w /\ twistStatus w' = twistStatus w
  /\ listening w' = listening w /\ rafQueue w' = rafQueue w.
Proof. unfold publishTwist. destruct (cmdVelRef w) eqn:E; cbn; auto 10. Qed.

Lemma invoke_frame (c : Joystick.Call num) (w : World num) :
  let w' := invoke c w in
  clock w' = clock w /\ cmdVelRef w' = cmdVelRef w
  /\ gamepadIdxRef w' = gamepadIdxRef w /\ lastMoveTime w' = lastMoveTime w
  /\ listening w' = listening w /\ rafQueue w' = rafQueue w.
Proof.
  destruct c as [l a | | t c]; cbn;
    unfold handleJoystickMove, handleJoystickEnd;
    try (destruct (publishTwist_frame l a w) as (? & ? & ? & ? & ? & ? & ? & ?));
    try (destruct (publishTwist_frame lit_0 lit_0 w) as (? & ? & ? & ? & ? & ? & ? & ?));
    auto 10.
Qed.

Lemma invokeAll_frame (cs : list (Joystick.Call num)) (w : World num) :
  let w' := invokeAll cs w in
  clock w' = clock w /\ cmdVelRef w' = cmdVelRef w
  /\ gamepadIdxRef w' = gamepadIdxRef w /\ lastMoveTime w' = lastMoveTime w
  /\ listening w' = listening w /\ rafQueue w' = rafQueue w.
Proof.
  revert w. induction cs as [| c cs IH]; intros w; cbn; [ auto 10 | ].
  destruct (IH (invoke c w)) as (? & ? & ? & ? & ? & ?).
  destruct (invoke_frame c w) as (? & ? & ? & ? & ? & ?).
  unfold invokeAll in *. cbn in *. repeat split; congruence.
Qed.

(** One poll tick touches the outbox, the activity status and the queue
    of callbacks only. *)
Lemma pollGamepad_frame (gamepads : list (option (Gamepad num))) (w : World num) :
  let w' := poll gamepads w in
  clock w' = clock w /\ cmdVelRef w' = cmdVelRef w
  /\ gamepadIdxRef w' = gamepadIdxRef w /\ lastMoveTime w' = lastMoveTime w
  /\ listening w' = listening w.
Proof.
  unfold pollGamepad.
  destruct (tracked gamepads w) as [gp |].
  - set (lin := if gt (Math_abs (axes1 gp)) lit_0_1 then _ else _).
    set (ang := if gt (Math_abs (axes0 gp)) lit_0_1 then _ else _).
    destruct (publishTwist_frame lin ang w) as (? & ? & I & ? & ? & ? & ? & ?).
    cbv zeta.
    destruct (truthy lin || truthy ang); cbn [gamepadIdxRef setTwistStatus];
      rewrite I; destruct (gamepadIdxRef w); cbn; auto 10.
  - cbv zeta. destruct (gamepadIdxRef w) eqn:E; cbn; auto 10.
Qed.

Lemma iter_pollGamepad_frame (gamepads : list (option (Gamepad num)))
    (n : nat) (w : World num) :
  let w' := Nat.iter n (poll gamepads) w in
  clock w' = clock w /\ cmdVelRef w' = cmdVelRef w
  /\ gamepadIdxRef w' = gamepadIdxRef w /\ lastMoveTime w' = lastMoveTime w
  /\ listening w' = listening w.
Proof.
  induction n as [| n IH]; [ cbn; auto | ].
  rewrite Nat.iter_succ.
  destruct IH as (? & ? & ? & ? & ?).
  destruct (pollGamepad_frame gamepads (Nat.iter n (poll gamepads) w))
    as (? & ? & ? & ? & ?).
  cbv zeta in *. repeat split; congruence.
Qed.

(** Once the effect has set the topic reference nothing clears it. *)
Lemma step_cmdVelRef (w : World num) (e : Event num) :
  cmdVelRef w = Some cmdVel -> cmdVelRef (step1 w e) = Some cmdVel.
Proof.
  intros C. destruct e as [t | | | | | ev | | i | | gps]; cbn [step];
    try (now destruct (listening w)).
  - unfold joystickMove.
    destruct (Joystick.handleMove _ _ _ _ _) as [t calls].
    destruct (invokeAll_frame calls (set_lastMoveTime t w)) as (_ & -> & _).
    exact C.
  - unfold joystickStop.
    destruct (invokeAll_frame Joystick.handleStop w) as (_ & -> & _). exact C.
  - unfold animationFrame.
    destruct (iter_pollGamepad_frame gps (rafQueue w) (set_rafQueue 0 w))
      as (_ & -> & _).
    exact C.
Qed.

Lemma run_cmdVelRef (es : list (Event num)) (w : World num) :
  cmdVelRef w = Some cmdVel -> cmdVelRef (runs es w) = Some cmdVel.
Proof.
  revert w. induction es as [| e es IH]; intros w C; cbn; [ exact C | ].
  apply IH. now apply step_cmdVelRef.
Qed.

Lemma mounted_cmdVelRef (es : list (Event num)) :
  cmdVelRef (runs es mounted) = Some cmdVel.
Proof. now apply run_cmdVelRef. Qed.
End WorldFacts.

(* ------------------------------------------------------------------ *)
(** ** What reaches the outbox *)

Section Outbox.
Context {num : Type} `{JSNumber num}.

(** The message the source builds at a clock reading is the wire record of
    the specification. *)
Lemma buildTwistStamped_wire (lin ang : num) (ms : Z) :
  0 <= ms ->
  buildTwistStamped lin ang ms = Spec.wire lin ang ms
  /\ 0 <= nanosec (stamp (header (buildTwistStamped lin ang ms))) < 10 ^ 9.
Proof.
  intros P. unfold buildTwistStamped, Spec.wire, getROSTimestamp.
  rewrite Z.rem_mod_nonneg by lia. cbn [nanosec stamp header].
  split; [ reflexivity | ].
  pose proof (Z.mod_pos_bound ms 1000). lia.
Qed.

Lemma cons_neq {A : Type} (a : A) (l : list A) : a :: l <> l.
Proof.
  intros E. apply (f_equal (@List.length A)) in E. cbn in E. lia.
Qed.

(** [publishTwist] returns the page it was given only when there is no
    topic. *)
Lemma publishTwist_same (lx az : num) (w : World num) :
  publishTwist lx az w = w <-> cmdVelRef w = None.
Proof.
  split; [ | apply publishTwist_null ].
  unfold publishTwist. destruct (cmdVelRef w); [ | reflexivity ].
  intros E. apply (f_equal outbox) in E. cbn in E. now apply cons_neq in E.
Qed.
End Outbox.

(* ------------------------------------------------------------------ *)
(** ** The touch path: throttle and release *)

Section Touch.
Context {num : Type} `{JSNumber num}.
Variables linearMul angularMul : num.

#[local] Abbreviation handleMove := (Joystick.handleMove linearMul angularMul).

Lemma set_lastMoveTime_same (w : World num) : set_lastMoveTime (lastMoveTime w) w = w.
Proof. now destruct w. Qed.

Lemma handleMove_rejected (event : Joystick.MoveEvent num) (now last : Z) :
  now - last < 30 -> handleMove event now last = (last, []).
Proof.
  intros L. unfold Joystick.handleMove.
  destruct (Joystick.x event), (Joystick.y event); try reflexivity.
  destruct (Z.ltb_spec (now - last) 30); [ reflexivity | lia ].
Qed.

Lemma handleMove_timer (event : Joystick.MoveEvent num) (now last : Z) :
  fst (handleMove event now last) =
  match Joystick.x event, Joystick.y event with
  | Some _, Some _ => if now - last <? 30 then last else now
  | _, _ => last
  end.
Proof.
  unfold Joystick.handleMove.
  destruct (Joystick.x event), (Joystick.y event); try reflexivity.
  destruct (now - last <? 30); [ reflexivity | ].
  cbv zeta. now destruct (_ || _).
Qed.

(** A handler that calls something has accepted the event. *)
Lemma handleMove_calls (event : Joystick.MoveEvent num) (now last : Z) :
  snd (handleMove event now last) <> [] -> fst (handleMove event now last) = now.
Proof.
  unfold Joystick.handleMove.
  destruct (Joystick.x event), (Joystick.y event); try (cbn; congruence).
  destruct (now - last <? 30); [ cbn; congruence | ].
  cbv zeta. now destruct (_ || _).
Qed.

Lemma joystickMove_fields (event : Joystick.MoveEvent num) (w : World num) :
  let r := handleMove event (clock w) (lastMoveTime w) in
  let w' := joystickMove linearMul angularMul event w in
  clock w' = clock w /\ lastMoveTime w' = fst r
  /\ (snd r = [] -> outbox w' = outbox w).
Proof.
  unfold joystickMove.
  destruct (Joystick.handleMove _ _ _ _ _) as [t calls]. cbn [fst snd].
  destruct (invokeAll_frame calls (set_lastMoveTime t w)) as (C & _ & _ & L & _).
  split; [ exact C | ]. split; [ exact L | ]. now intros ->.
Qed.

Lemma joystickStop_set (t : Topic) (w : World num) :
  cmdVelRef w = Some t ->
  joystickStop w =
  setTwistStatus {| text := Idle; color := "#ccc" |}
    (publish (buildTwistStamped lit_0 lit_0 (clock w)) w).
Proof.
  intros C. unfold joystickStop, Joystick.handleStop, invokeAll.
  cbn [fold_left invoke]. unfold handleJoystickEnd.
  now rewrite (publishTwist_set t).
Qed.

(** C4.  A release calls [onEnd] and signals Idle, whatever the content of
    the throttle timer; on the page, after any events at all (any throttle
    state, any earlier command), it hands exactly the stop message (0, 0)
    to the topic, sets the activity status to Idle and leaves the throttle
    timer alone. *)
Theorem release_publishes_stop_and_idle (es : list (Event num)) :
  let w := run linearMul angularMul es mounted in
  let w' := step linearMul angularMul w JoystickStop in
  @Joystick.handleStop num =
    [Joystick.onEnd; Joystick.onStatusUpdate Idle (Some "#ccc"%string)]
  /\ outbox w' = buildTwistStamped lit_0 lit_0 (clock w) :: outbox w
  /\ twistStatus w' = {| text := Idle; color := "#ccc" |}
  /\ lastMoveTime w' = lastMoveTime w
  /\ forall (t : Topic) (v : World num), cmdVelRef v = Some t ->
       joystickStop v =
       setTwistStatus {| text := Idle; color := "#ccc" |}
         (publish (buildTwistStamped lit_0 lit_0 (clock v)) v).
Proof.
  intros w w'. subst w'. cbn [step].
  rewrite (joystickStop_set cmdVel w) by apply mounted_cmdVelRef.
  split; [ reflexivity | ].
  split; [ reflexivity | ].
  split; [ reflexivity | ].
  split; [ reflexivity | ].
  intros t v. apply joystickStop_set.
Qed.

(** C5.  A move event that arrives fewer than 30 ms after the last
    accepted one is rejected: the handler calls nothing and leaves
    [lastMoveTime] as it was, and the page is unchanged.  The timer becomes
    [now] exactly when both axes are present and the throttle is passed.
    Of two move events 10 ms apart at most one reaches the outbox; two
    events 40 ms apart can both do so. *)
Theorem throttle_rejects_within_30ms (event : Joystick.MoveEvent num) (w : World num) :
  clock w - lastMoveTime w < 30 ->
  handleMove event (clock w) (lastMoveTime w) = (lastMoveTime w, [])
  /\ joystickMove linearMul angularMul event w = w
  /\ (forall ev now last,
        fst (handleMove ev now last) =
        match Joystick.x ev, Joystick.y ev with
        | Some _, Some _ => if now - last <? 30 then last else now
        | _, _ => last
        end)
  /\ (forall (e1 e2 : Joystick.MoveEvent num) (now last : Z),
        let r1 := handleMove e1 now last in
        let r2 := handleMove e2 (now + 10) (fst r1) in
        snd r1 = [] \/ snd r2 = [])
  /\ (forall (v : World num) (t : N) (e1 e2 : Joystick.MoveEvent num),
        let v1 := run linearMul angularMul [ClockAt t; JoystickMove e1] v in
        let v2 := run linearMul angularMul [ClockAt (t + 10); JoystickMove e2] v1 in
        outbox v1 = outbox v \/ outbox v2 = outbox v1)
  /\ List.length (outbox (run 0.5%float 1%float
               [ClockAt 1000;
                JoystickMove {| Joystick.x := Some 50%float; Joystick.y := Some 0%float |};
                ClockAt 1040;
                JoystickMove {| Joystick.x := Some 60%float; Joystick.y := Some 0%float |}]
               mounted)) = 2%nat.
Proof.
  intros L.
  pose proof (handleMove_rejected event (clock w) (lastMoveTime w) L) as R.
  split; [ exact R | ].
  split.
  { unfold joystickMove. rewrite R. cbn. apply set_lastMoveTime_same. }
  split; [ apply handleMove_timer | ].
  split.
  { intros e1 e2 now last r1 r2. subst r1 r2.
    destruct (snd (handleMove e1 now last)) as [| c cs] eqn:S1; [ now left | right ].
    rewrite handleMove_calls by (rewrite S1; discriminate).
    rewrite handleMove_rejected; [ reflexivity | lia ]. }
  split; [ | reflexivity ].
  intros v t e1 e2. cbn [run fold_left step].
  set (a := set_clock (Z.of_N t) v).
  destruct (joystickMove_fields e1 a) as (C1 & T1 & O1). cbv zeta in C1, T1, O1.
  set (a1 := joystickMove linearMul angularMul e1 a) in *.
  destruct (snd (handleMove e1 (clock a) (lastMoveTime a))) as [| c cs] eqn:S1.
  - left. now rewrite O1.
  - right. cbv zeta.
    set (b := set_clock (Z.of_N (t + 10)) a1).
    destruct (joystickMove_fields e2 b) as (_ & _ & O2). cbv zeta in O2.
    rewrite O2; [ reflexivity | ].
    rewrite handleMove_rejected; [ reflexivity | ].
    assert (lastMoveTime b = Z.of_N t) as ->.
    { change (lastMoveTime b) with (lastMoveTime a1). rewrite T1.
      rewrite handleMove_calls by (rewrite S1; discriminate). reflexivity. }
    change (clock b) with (Z.of_N (t + 10)). lia.
Qed.
End Touch.

Lemma throttle_rejects_within_30ms_witness :
  clock (set_clock 1010 (set_lastMoveTime 1000 (@mounted float))) - 1000 < 30
  /\ joystickMove 0.5%float 1%float
       {| Joystick.x := Some 80%float; Joystick.y := Some 0%float |}
       (set_clock 1010 (set_lastMoveTime 1000 mounted))
     = set_clock 1010 (set_lastMoveTime 1000 mounted).
Proof.
  split; [ reflexivity | ].
  apply (throttle_rejects_within_30ms 0.5%float 1%float
           {| Joystick.x := Some 80%float; Joystick.y := Some 0%float |}
           (set_clock 1010 (set_lastMoveTime 1000 mounted))).
  reflexivity.
Defined.

(* ------------------------------------------------------------------ *)
(** ** The gamepad polling loop *)

Section GamepadLoop.
Context {num : Type} `{JSNumber num}.
Variables linearMul angularMul : num.

#[local] Abbreviation step1 := (step linearMul angularMul).
#[local] Abbreviation runs := (run linearMul angularMul).
#[local] Abbreviation poll := (pollGamepad linearMul angularMul).
#[local] Abbreviation frame := (animationFrame linearMul angularMul).

Lemma tracked_index (gamepads : list (option (Gamepad num))) (w : World num)
    (gp : Gamepad num) :
  tracked gamepads w = Some gp -> exists i, gamepadIdxRef w = Some i.
Proof. unfold tracked. destruct (gamepadIdxRef w); [ eauto | discriminate ]. Qed.

(** A tick whose device is present, with the topic set. *)
Lemma pollGamepad_present (gamepads : list (option (Gamepad num))) (w : World num)
    (t : Topic) (gp : Gamepad num) :
  cmdVelRef w = Some t -> tracked gamepads w = Some gp ->
  let lin := if gt (Math_abs (axes1 gp)) lit_0_1
             then mul (neg (axes1 gp)) linearMul else lit_0 in
  let ang := if gt (Math_abs (axes0 gp)) lit_0_1
             then mul (neg (axes0 gp)) angularMul else lit_0 in
  poll gamepads w =
  requestAnimationFrame
    (setTwistStatus
       (if truthy lin || truthy ang
        then {| text := Active; color := "#00ffcc" |}
        else {| text := Idle; color := "#ccc" |})
       (publish (buildTwistStamped lin ang (clock w)) w)).
Proof.
  intros C T lin ang. destruct (tracked_index gamepads w gp T) as [i I].
  unfold pollGamepad. rewrite T. cbv zeta. fold lin ang.
  rewrite (publishTwist_set t) by exact C.
  destruct (truthy lin || truthy ang); cbn [gamepadIdxRef setTwistStatus publish set_outbox];
    rewrite I; reflexivity.
Qed.

(** A tick that finds the index cleared does nothing at all. *)
Lemma pollGamepad_cleared (gamepads : list (option (Gamepad num))) (w : World num) :
  gamepadIdxRef w = None -> poll gamepads w = w.
Proof.
  intros I. unfold pollGamepad, tracked. rewrite I. cbv zeta.
  now rewrite I.
Qed.

(** A tick that finds the index tracked but no device there. *)
Lemma pollGamepad_absent (gamepads : list (option (Gamepad num))) (w : World num)
    (i : nat) :
  gamepadIdxRef w = Some i -> tracked gamepads w = None ->
  poll gamepads w = requestAnimationFrame w.
Proof.
  intros I T. unfold pollGamepad. rewrite T. cbv zeta. now rewrite I.
Qed.

Lemma pollGamepad_queue (gamepads : list (option (Gamepad num))) (w : World num) :
  rafQueue (poll gamepads w) =
  match gamepadIdxRef w with Some _ => S (rafQueue w) | None => rafQueue w end.
Proof.
  destruct (gamepadIdxRef w) as [i |] eqn:I.
  - unfold pollGamepad.
    destruct (tracked gamepads w) as [gp |]; cbv zeta.
    + set (lin := if gt (Math_abs (axes1 gp)) lit_0_1 then _ else _).
      set (ang := if gt (Math_abs (axes0 gp)) lit_0_1 then _ else _).
      destruct (publishTwist_frame lin ang w) as (_ & _ & J & _ & _ & _ & _ & Q).
      cbv zeta in J, Q.
      destruct (truthy lin || truthy ang); cbn [gamepadIdxRef setTwistStatus];
        rewrite J, I; cbn; now rewrite Q.
    + now rewrite I.
  - now rewrite pollGamepad_cleared.
Qed.

Lemma iter_pollGamepad_queue (gamepads : list (option (Gamepad num))) (n : nat)
    (w : World num) :
  rafQueue (Nat.iter n (poll gamepads) w) =
  match gamepadIdxRef w with Some _ => (n + rafQueue w)%nat | None => rafQueue w end.
Proof.
  induction n as [| n IH]; [ now destruct (gamepadIdxRef w) | ].
  rewrite Nat.iter_succ, pollGamepad_queue, IH.
  destruct (iter_pollGamepad_frame linearMul angularMul gamepads n w) as (_ & _ & -> & _).
  now destruct (gamepadIdxRef w).
Qed.

(** The loops that survive a frame: all of them while an index is tracked,
    none once it is cleared. *)
Lemma animationFrame_queue (gamepads : list (option (Gamepad num))) (w : World num) :
  rafQueue (frame gamepads w) =
  match gamepadIdxRef w with Some _ => rafQueue w | None => 0%nat end.
Proof.
  unfold animationFrame. rewrite iter_pollGamepad_queue. cbn.
  destruct (gamepadIdxRef w); [ apply Nat.add_0_r | reflexivity ].
Qed.

Lemma animationFrame_cleared (gamepads : list (option (Gamepad num))) (w : World num) :
  gamepadIdxRef w = None -> frame gamepads w = set_rafQueue 0 w.
Proof.
  intros I. unfold animationFrame.
  induction (rafQueue w) as [| n IH]; [ reflexivity | ].
  rewrite Nat.iter_succ, IH. now apply pollGamepad_cleared.
Qed.

Lemma step_queue (w : World num) (e : Event num) :
  rafQueue (step1 w e) =
  match e with
  | GamepadConnected _ => if listening w then S (rafQueue w) else rafQueue w
  | AnimationFrame _ =>
      match gamepadIdxRef w with Some _ => rafQueue w | None => 0%nat end
  | _ => rafQueue w
  end.
Proof.
  destruct e as [t | | | | | ev | | i | | gps]; cbn [step];
    try (now destruct (listening w)).
  - unfold joystickMove.
    destruct (Joystick.handleMove _ _ _ _ _) as [t calls].
    now destruct (invokeAll_frame calls (set_lastMoveTime t w)) as (_ & _ & _ & _ & _ & ->).
  - unfold joystickStop.
    now destruct (invokeAll_frame Joystick.handleStop w) as (_ & _ & _ & _ & _ & ->).
  - apply animationFrame_queue.
Qed.

Lemma step_index (w : World num) (e : Event num) :
  gamepadIdxRef (step1 w e) =
  match e with
  | GamepadConnected i => if listening w then Some i else gamepadIdxRef w
  | GamepadDisconnected => if listening w then None else gamepadIdxRef w
  | _ => gamepadIdxRef w
  end.
Proof.
  destruct e as [t | | | | | ev | | i | | gps]; cbn [step];
    try (now destruct (listening w)).
  - unfold joystickMove.
    destruct (Joystick.handleMove _ _ _ _ _) as [t calls].
    now destruct (invokeAll_frame calls (set_lastMoveTime t w)) as (_ & _ & -> & _).
  - unfold joystickStop.
    now destruct (invokeAll_frame Joystick.handleStop w) as (_ & _ & -> & _).
  - unfold animationFrame.
    now destruct (iter_pollGamepad_frame linearMul angularMul gps (rafQueue w)
                    (set_rafQueue 0 w)) as (_ & _ & -> & _).
Qed.

(** C6.  The disconnect handler clears the tracked index and sends
    nothing; the next poll tick then publishes nothing and requests no
    further frame, so a frame leaves no loop behind.  A tick fails to
    reschedule exactly when the index is cleared, only a disconnect event
    clears a tracked index, and a tick that finds the index tracked but the
    device absent publishes nothing and reschedules. *)
Theorem disconnect_stops_polling_without_stop_command
    (gamepads : list (option (Gamepad num))) (w : World num) :
  let d := handleGamepadDisconnected w in
  (gamepadIdxRef d = None /\ outbox d = outbox w /\ rafQueue d = rafQueue w)
  /\ pollGamepad linearMul angularMul gamepads d = d
  /\ (outbox (animationFrame linearMul angularMul gamepads d) = outbox w
      /\ rafQueue (animationFrame linearMul angularMul gamepads d) = 0%nat)
  /\ (forall v, rafQueue (pollGamepad linearMul angularMul gamepads v) = rafQueue v
                <-> gamepadIdxRef v = None)
  /\ (forall v e, gamepadIdxRef v <> None -> gamepadIdxRef (step linearMul angularMul v e) = None ->
                  e = GamepadDisconnected)
  /\ (forall v i, gamepadIdxRef v = Some i -> tracked gamepads v = None ->
                  pollGamepad linearMul angularMul gamepads v = requestAnimationFrame v).
Proof.
  intros d.
  split; [ repeat split | ].
  split; [ now apply pollGamepad_cleared | ].
  split; [ now rewrite animationFrame_cleared | ].
  split.
  { intros v. rewrite pollGamepad_queue.
    destruct (gamepadIdxRef v); split; intros E; try discriminate; try reflexivity.
    exfalso. exact (Nat.neq_succ_diag_l _ E). }
  split; [ | intros v i; apply pollGamepad_absent ].
  intros v e T. rewrite step_index.
  destruct e; try (intros E; now elim T).
  - destruct (listening v); [ discriminate | intros E; now elim T ].
  - reflexivity.
Qed.

Lemma step_single_loop (w : World num) (e : Event num) :
  (rafQueue w <= 1)%nat ->
  match e with GamepadConnected _ => Nat.eqb (rafQueue w) 0 | _ => true end = true ->
  (rafQueue (step1 w e) <= 1)%nat.
Proof.
  intros Q I. rewrite step_queue.
  destruct e; try exact Q.
  - apply Nat.eqb_eq in I. destruct (listening w); lia.
  - destruct (gamepadIdxRef w); lia.
Qed.

(** C8, as amended.  A connect event replaces the tracked index and adds
    one polling loop to those already scheduled; a frame keeps every
    scheduled loop while an index is tracked and drops them all once it is
    cleared.  Hence at most one loop is active as long as every connect
    event arrives when no loop is scheduled. *)
Theorem one_loop_when_connects_find_none (es : list (Event num)) (w : World num) :
  (rafQueue w <= 1)%nat ->
  Spec.connects_when_idle linearMul angularMul es w = true ->
  (rafQueue (run linearMul angularMul es w) <= 1)%nat
  /\ (forall v i, listening v = true ->
        gamepadIdxRef (step linearMul angularMul v (GamepadConnected i)) = Some i
        /\ rafQueue (step linearMul angularMul v (GamepadConnected i)) = S (rafQueue v))
  /\ (forall v gamepads,
        rafQueue (step linearMul angularMul v (AnimationFrame gamepads)) =
        match gamepadIdxRef v with Some _ => rafQueue v | None => 0%nat end).
Proof.
  intros Q I. split.
  - revert w Q I. induction es as [| e es IH]; intros w Q I; [ exact Q | ].
    cbn [Spec.connects_when_idle] in I. apply andb_true_iff in I as [I1 I2].
    apply (IH (step1 w e)); [ now apply step_single_loop | exact I2 ].
  - split.
    + intros v i L. rewrite step_index, step_queue, L. auto.
    + intros v gamepads. now rewrite step_queue.
Qed.
End GamepadLoop.

(** C8, as stated, fails: a second connect event while a device is
    tracked, or a reconnect before the next frame, leaves two loops that
    both keep rescheduling themselves, and every later frame publishes
    twice. *)
Lemma second_connect_leaves_two_loops :
  ~ Spec.single_loop 0.5%float 1%float
      [GamepadConnected 0; GamepadConnected 1; AnimationFrame idle_pads;
       AnimationFrame idle_pads]
  /\ ~ Spec.single_loop 0.5%float 1%float
      [GamepadConnected 0; GamepadDisconnected; GamepadConnected 0;
       AnimationFrame idle_pads; AnimationFrame idle_pads]
  /\ rafQueue (run 0.5%float 1%float
                 [GamepadConnected 0; GamepadConnected 1; AnimationFrame idle_pads;
                  AnimationFrame idle_pads] mounted) = 2%nat
  /\ List.length (outbox (run 0.5%float 1%float
                 [GamepadConnected 0; GamepadConnected 1; AnimationFrame idle_pads;
                  AnimationFrame idle_pads] mounted)) = 4%nat.
Proof.
  unfold Spec.single_loop.
  split; [ vm_compute; lia | ].
  split; [ vm_compute; lia | ].
  split; reflexivity.
Qed.

Lemma one_loop_when_connects_find_none_witness :
  (rafQueue (@mounted float) <= 1)%nat
  /\ (rafQueue (run 0.5%float 1%float
                  [GamepadConnected 0; AnimationFrame idle_pads; GamepadDisconnected;
                   AnimationFrame idle_pads; GamepadConnected 1;
                   AnimationFrame idle_pads] mounted) <= 1)%nat.
Proof.
  assert (rafQueue (@mounted float) <= 1)%nat as Q by (cbn; lia).
  split; [ exact Q | ].
  apply (one_loop_when_connects_find_none 0.5%float 1%float
           [GamepadConnected 0; AnimationFrame idle_pads; GamepadDisconnected;
            AnimationFrame idle_pads; GamepadConnected 1; AnimationFrame idle_pads]
           mounted Q).
  reflexivity.
Defined.

(* ------------------------------------------------------------------ *)
(** ** The gamepad path over the exact numbers *)

Section GamepadExact.
Open Scope Qc_scope.
Variables linearMul angularMul : Qc.

Lemma pollGamepad_idle (gamepads : list (option (Gamepad Qc))) (w : World Qc)
    (t : Topic) (gp : Gamepad Qc) :
  cmdVelRef w = Some t -> tracked gamepads w = Some gp ->
  Qcabs (axes0 gp) <= Spec.deadzone -> Qcabs (axes1 gp) <= Spec.deadzone ->
  pollGamepad linearMul angularMul gamepads w =
  requestAnimationFrame
    (setTwistStatus {| text := Idle; color := "#ccc" |}
       (publish (buildTwistStamped 0 0 (clock w)) w)).
Proof.
  intros C T X Y.
  rewrite (pollGamepad_present linearMul angularMul gamepads w t gp C T).
  cbv zeta. cbn [lit_0_1 lit_0 exact Math_abs mul neg].
  change (Q2Qc (1 # 10)) with Spec.deadzone.
  apply gt_false in X, Y. rewrite X, Y. reflexivity.
Qed.

(** C10.  On the page, after any events (whatever the status was), a poll
    tick that finds the tracked device with both axes inside the deadzone
    hands the message (0, 0) to the topic and sets the activity status to
    Idle; so a frame with a loop scheduled ends with status Idle and the
    stop message as the latest one.  In particular a touch command and its
    Active status are overwritten by the next frame of an idle connected
    gamepad. *)
Theorem idle_gamepad_publishes_stop_and_idle
    (es : list (Event Qc)) (gamepads : list (option (Gamepad Qc))) (gp : Gamepad Qc) :
  let w := run linearMul angularMul es mounted in
  let w' := pollGamepad linearMul angularMul gamepads w in
  let f := step linearMul angularMul w (AnimationFrame gamepads) in
  tracked gamepads w = Some gp ->
  Qcabs (axes0 gp) <= Spec.deadzone -> Qcabs (axes1 gp) <= Spec.deadzone ->
  outbox w' = buildTwistStamped 0 0 (clock w) :: outbox w
  /\ twistStatus w' = {| text := Idle; color := "#ccc" |}
  /\ (rafQueue w <> 0%nat ->
      twistStatus f = {| text := Idle; color := "#ccc" |}
      /\ hd_error (outbox f) = Some (buildTwistStamped 0 0 (clock w)))
  /\ (let touched :=
        run (Q2Qc (1 # 2)) 1
          [ClockAt 1000; GamepadConnected 0;
           JoystickMove {| Joystick.x := Some (Q2Qc 50); Joystick.y := Some 0 |}]
          mounted in
      let polled := step (Q2Qc (1 # 2)) 1 touched (AnimationFrame idle_pads_exact) in
      text (twistStatus touched) = Active
      /\ text (twistStatus polled) = Idle
      /\ outbox polled = buildTwistStamped 0 0 1000 :: outbox touched).
Proof.
  intros w w' f T X Y. subst w' f.
  assert (cmdVelRef w = Some cmdVel) as C by apply mounted_cmdVelRef.
  rewrite (pollGamepad_idle gamepads w cmdVel gp C T X Y).
  split; [ reflexivity | ].
  split; [ reflexivity | ].
  split.
  - intros Q. cbn [step]. unfold animationFrame.
    destruct (rafQueue w) as [| n]; [ now elim Q | ].
    rewrite Nat.iter_succ.
    set (v := Nat.iter n _ _).
    destruct (iter_pollGamepad_frame linearMul angularMul gamepads n (set_rafQueue 0 w))
      as (Cl & Cm & Ix & _).
    cbv zeta in Cl, Cm, Ix. fold v in Cl, Cm, Ix.
    assert (tracked gamepads v = Some gp) as Tv.
    { unfold tracked in *. rewrite Ix. exact T. }
    assert (cmdVelRef v = Some cmdVel) as Cv by (rewrite Cm; exact C).
    rewrite (pollGamepad_idle gamepads v cmdVel gp Cv Tv X Y).
    cbn. now rewrite Cl.
  - cbv zeta. split; [ reflexivity | ]. split; reflexivity.
Qed.
End GamepadExact.

Lemma idle_gamepad_publishes_stop_and_idle_witness :
  tracked idle_pads_exact
    (run (Q2Qc (1 # 2)) 1%Qc [ClockAt 1000; GamepadConnected 0] mounted)
  = Some idle_pad_exact
  /\ twistStatus (pollGamepad (Q2Qc (1 # 2)) 1%Qc idle_pads_exact
                    (run (Q2Qc (1 # 2)) 1%Qc [ClockAt 1000; GamepadConnected 0] mounted))
     = {| text := Idle; color := "#ccc" |}.
Proof.
  assert (tracked idle_pads_exact
            (run (Q2Qc (1 # 2)) 1%Qc [ClockAt 1000; GamepadConnected 0] mounted)
          = Some idle_pad_exact) as T by reflexivity.
  split; [ exact T | ].
  apply (idle_gamepad_publishes_stop_and_idle (Q2Qc (1 # 2)) 1%Qc
           [ClockAt 1000; GamepadConnected 0] idle_pads_exact idle_pad_exact T);
    unfold Qcle; cbn; discriminate.
Defined.

(* ------------------------------------------------------------------ *)
(** ** The same code in binary64 *)

(** Scenario B of the specification: axis y = -0.5 with linearMul = 0.5
    gives linear 0.25, published on the tick. *)
Example gamepad_scenario_B :
  outbox (run 0.5%float 1%float
            [ClockAt 1700000000123; GamepadConnected 0;
             AnimationFrame [Some {| axes0 := 0%float; axes1 := (-0.5)%float |}]]
            mounted)
  = [{| header := {| frame_id := "base_link";
                     stamp := {| sec := 1700000000; nanosec := 123000000 |} |};
        twist := {| linear := {| x := 0.25%float; y := 0%float; z := 0%float |};
                    angular := {| x := 0%float; y := 0%float; z := 0%float |} |} |}].
Proof. reflexivity. Qed.

(** A release before the effect has run reaches no topic; after it, the
    stop message is sent. *)
Example release_before_and_after_effect :
  outbox (run 0.5%float 1%float [JoystickStop] initial) = []
  /\ outbox (run 0.5%float 1%float [EffectRun; ClockAt 2500; JoystickStop] initial)
     = [buildTwistStamped 0%float 0%float 2500].
Proof. split; reflexivity. Qed.

(** The curve on a few binary64 samples. *)
Example applyEasing_binary64 :
  Joystick.applyEasing 0%float = 0%float
  /\ Joystick.applyEasing 100%float = 1%float
  /\ Joystick.applyEasing (-100)%float = (-1)%float
  /\ Joystick.applyEasing 50%float = 0.25%float
  /\ Joystick.applyEasing (-50)%float = (-0.25)%float.
Proof. repeat split. Qed.

(* ------------------------------------------------------------------ *)
(** ** Further properties: the throttle over time *)

Section NeutralSample.
Context {num : Type} `{JSNumber num}.
Variables linearMul angularMul : num.

(** A sample that the handler finds below its threshold (neither computed
    magnitude tests above 0.01, in the arithmetic of the page) and that
    passes the throttle publishes nothing, not even a stop, yet it takes
    the throttle slot: whatever sample follows within the next 30 ms is
    dropped as well, so the outbox and the status are as before both
    events. *)
Theorem quiet_sample_takes_throttle_slot
    (ex ey : num) (later : Joystick.MoveEvent num) (t : N) (w : World num) :
  30 <= clock w - lastMoveTime w ->
  gt (Math_abs (mul (Joystick.applyEasing ey) linearMul)) lit_0_01 = false ->
  gt (Math_abs (mul (neg (Joystick.applyEasing ex)) angularMul)) lit_0_01 = false ->
  Z.of_N t - clock w < 30 ->
  let quiet := {| Joystick.x := Some ex; Joystick.y := Some ey |} in
  let w' := run linearMul angularMul
              [JoystickMove quiet; ClockAt t; JoystickMove later] w in
  outbox w' = outbox w
  /\ twistStatus w' = twistStatus w
  /\ lastMoveTime w' = clock w.
Proof.
  intros T Ly Lx D quiet w'. subst w' quiet.
  cbn [run fold_left step].
  assert (joystickMove linearMul angularMul
            {| Joystick.x := Some ex; Joystick.y := Some ey |} w
          = set_lastMoveTime (clock w) w) as ->.
  { unfold joystickMove.
    rewrite (handleMove_accepted linearMul angularMul ex ey _ _ T). cbv zeta.
    now rewrite Ly, Lx. }
  unfold joystickMove. rewrite handleMove_rejected by (cbn; lia).
  cbn. auto.
Qed.
End NeutralSample.

Lemma quiet_sample_takes_throttle_slot_witness :
  outbox (run 0.5%float 1%float
            [JoystickMove {| Joystick.x := Some 9%float; Joystick.y := Some (-9)%float |};
             ClockAt 1040;
             JoystickMove {| Joystick.x := Some 90%float; Joystick.y := Some 90%float |}]
            world0_binary64)
  = outbox world0_binary64.
Proof.
  apply (quiet_sample_takes_throttle_slot 0.5%float 1%float 9%float (-9)%float
           {| Joystick.x := Some 90%float; Joystick.y := Some 90%float |}
           1040%N world0_binary64).
  - cbn; lia.
  - reflexivity.
  - reflexivity.
  - cbn; lia.
Defined.

Section ThrottleRate.
Context {num : Type} `{JSNumber num}.
Variables linearMul angularMul : num.

(** What one move event does to the outbox and the timer. *)
Lemma joystickMove_cases (event : Joystick.MoveEvent num) (w : World num) :
  let w' := joystickMove linearMul angularMul event w in
  clock w' = clock w
  /\ ((outbox w' = outbox w
       /\ (lastMoveTime w' = lastMoveTime w
           \/ (lastMoveTime w' = clock w /\ 30 <= clock w - lastMoveTime w)))
      \/ ((exists m, outbox w' = m :: outbox w)
          /\ lastMoveTime w' = clock w /\ 30 <= clock w - lastMoveTime w)).
Proof.
  unfold joystickMove, Joystick.handleMove.
  destruct (Joystick.x event) as [ex |], (Joystick.y event) as [ey |];
    try (cbn; auto; fail).
  destruct (Z.ltb_spec (clock w - lastMoveTime w) 30) as [L | G]; [ cbn; auto | ].
  cbv zeta. destruct (_ || _); [ | cbn; auto 8 ].
  cbn [invokeAll fold_left invoke].
  unfold handleJoystickStatusUpdate, handleJoystickMove.
  set (v := set_lastMoveTime (clock w) w).
  match goal with |- context [publishTwist ?l ?a v] =>
    destruct (publishTwist_frame l a v) as (C & _ & _ & L & _);
    unfold publishTwist in *; destruct (cmdVelRef v)
  end; cbn; split; auto 8.
  right. split; [ eexists; reflexivity | auto ].
Qed.

(** The throttle timer never runs backwards, whatever the clock does: an
    event leaves it alone or advances it by at least 30 ms, to the clock. *)
Theorem throttle_timer_never_goes_back (w : World num) (e : Event num) :
  let w' := step linearMul angularMul w e in
  lastMoveTime w' = lastMoveTime w
  \/ (lastMoveTime w + 30 <= lastMoveTime w' /\ lastMoveTime w' = clock w).
Proof.
  destruct e as [t | | | | | ev | | i | | gps]; cbn [step]; cbv zeta;
    try (left; now destruct (listening w)).
  - destruct (joystickMove_cases ev w) as (_ & [[_ [E | [E G]]] | (_ & E & G)]);
      cbv zeta in *; [ now left | right; lia | right; lia ].
  - left. unfold joystickStop.
    now destruct (invokeAll_frame Joystick.handleStop w) as (_ & _ & _ & -> & _).
  - left. unfold animationFrame.
    now destruct (iter_pollGamepad_frame linearMul angularMul gps (rafQueue w)
                    (set_rafQueue 0 w)) as (_ & _ & _ & -> & _).
Qed.

Lemma touch_rate_invariant (T : Z) (es : list (Event num)) (w : World num) :
  Timing.touch_only es -> Timing.clock_bounded T es ->
  clock w <= T -> lastMoveTime w <= T ->
  let w' := run linearMul angularMul es w in
  lastMoveTime w' <= T
  /\ 30 * Z.of_nat (List.length (outbox w')) - lastMoveTime w'
     <= 30 * Z.of_nat (List.length (outbox w)) - lastMoveTime w.
Proof.
  revert w. induction es as [| e es IH]; intros w O B C L; [ cbn; lia | ].
  inversion O as [| ? ? Oe Oes]; subst. inversion B as [| ? ? Be Bes]; subst.
  cbn [run fold_left]. fold (run linearMul angularMul es (step linearMul angularMul w e)).
  destruct e as [t | | | | | ev | | i | | gps]; try contradiction; cbn [step].
  - destruct (IH (set_clock (Z.of_N t) w) Oes Bes) as [L' R']; cbn; auto.
  - destruct (joystickMove_cases ev w) as (C' & K). cbv zeta in C', K.
    set (v := joystickMove linearMul angularMul ev w) in *.
    assert (lastMoveTime v <= T
            /\ 30 * Z.of_nat (List.length (outbox v)) - lastMoveTime v
               <= 30 * Z.of_nat (List.length (outbox w)) - lastMoveTime w) as [Lv Rv].
    { destruct K as [[E [F | [F G]]] | ([m E] & F & G)]; rewrite E, F;
        cbn [List.length]; lia. }
    destruct (IH v Oes Bes) as [L' R']; [ lia | exact Lv | ].
    cbv zeta in L', R'. split; [ exact L' | lia ].
Qed.

(** The touch path publishes at most one command per 30 ms: along a trace
    of clock readings up to [T] and move events, thirty times the number of
    messages published fits between the initial content of the throttle
    timer and [T]. *)
Theorem touch_publishes_at_most_one_per_30ms
    (T : Z) (es : list (Event num)) (w : World num) :
  Timing.touch_only es -> Timing.clock_bounded T es ->
  clock w <= T -> lastMoveTime w <= T ->
  30 * (Z.of_nat (List.length (outbox (run linearMul angularMul es w)))
        - Z.of_nat (List.length (outbox w)))
  <= T - lastMoveTime w.
Proof.
  intros O B C L.
  destruct (touch_rate_invariant T es w O B C L) as [L' R']. cbv zeta in L', R'. lia.
Qed.
End ThrottleRate.

Lemma touch_publishes_at_most_one_per_30ms_witness :
  30 * (Z.of_nat (List.length (outbox (run 0.5%float 1%float burst mounted_at_1000)))
        - Z.of_nat (List.length (outbox mounted_at_1000)))
  <= 1080 - lastMoveTime mounted_at_1000
  /\ List.length (outbox (run 0.5%float 1%float burst mounted_at_1000)) = 3%nat.
Proof.
  split; [ | reflexivity ].
  apply (touch_publishes_at_most_one_per_30ms 0.5%float 1%float 1080 burst
           mounted_at_1000).
  - unfold burst. repeat constructor.
  - unfold burst. repeat constructor; cbn; lia.
  - cbn; lia.
  - cbn; lia.
Defined.

(* ------------------------------------------------------------------ *)
(** ** Further properties: stamps and the order of the outbox *)


Lemma getROSTimestamp_nonneg (now : Z) :
  0 <= now ->
  sec (getROSTimestamp now) * 10 ^ 9 + nanosec (getROSTimestamp now) = now * 10 ^ 6
  /\ 0 <= nanosec (getROSTimestamp now) < 10 ^ 9.
Proof.
  intros P. unfold getROSTimestamp. cbn [sec nanosec].
  change (10 ^ 9) with 1000000000. change (10 ^ 6) with 1000000.
  rewrite Z.rem_mod_nonneg by lia.
  pose proof (Z.div_mod now 1000 ltac:(lia)).
  pose proof (Z.mod_pos_bound now 1000 ltac:(lia)). lia.
Qed.

(** The stamp read back in nanoseconds is the capture time exactly when the
    clock is not negative (then [nanosec] is in [0, 10^9)).  For a
    negative time that is not a whole second the floor of the seconds and
    the truncating remainder disagree: [nanosec] is negative and the stamp
    lies one second before the capture time. *)
Theorem getROSTimestamp_decodes_iff_nonnegative (now : Z) :
  let s := getROSTimestamp now in
  (0 <= now ->
     sec s * 10 ^ 9 + nanosec s = now * 10 ^ 6 /\ 0 <= nanosec s < 10 ^ 9)
  /\ (now < 0 -> now mod 1000 <> 0 ->
     sec s * 10 ^ 9 + nanosec s = (now - 1000) * 10 ^ 6 /\ nanosec s < 0)
  /\ (now mod 1000 = 0 -> sec s * 10 ^ 9 + nanosec s = now * 10 ^ 6 /\ nanosec s = 0).
Proof.
  cbv zeta. unfold getROSTimestamp. cbn [sec nanosec].
  change (10 ^ 9) with 1000000000. change (10 ^ 6) with 1000000.
  split; [ | split ].
  - intros P. Z.to_euclidean_division_equations. lia.
  - intros N M. Z.to_euclidean_division_equations. lia.
  - intros M. Z.to_euclidean_division_equations. lia.
Qed.

Section Appending.
Context {num : Type} `{JSNumber num}.
Variables linearMul angularMul : num.

(** The messages for a list of commands stamped at [t]. *)
Lemma publishTwist_appends (lx az : num) (w : World num) :
  exists cmds : list (num * num),
    outbox (publishTwist lx az w) =
    map (fun c => buildTwistStamped (fst c) (snd c) (clock w)) cmds ++ outbox w.
Proof.
  unfold publishTwist. destruct (cmdVelRef w).
  - exists [(lx, az)]. reflexivity.
  - exists []. reflexivity.
Qed.

Lemma invokeAll_appends (cs : list (Joystick.Call num)) (w : World num) :
  exists cmds : list (num * num),
    outbox (invokeAll cs w) =
    map (fun c => buildTwistStamped (fst c) (snd c) (clock w)) cmds ++ outbox w.
Proof.
  revert w. induction cs as [| c cs IH]; intros w; [ now exists [] | ].
  cbn [invokeAll fold_left]. fold (invokeAll cs (invoke c w)).
  destruct (IH (invoke c w)) as [later L].
  destruct (invoke_frame c w) as (C & _).
  assert (exists first : list (num * num),
             outbox (invoke c w) =
             map (fun c => buildTwistStamped (fst c) (snd c) (clock w)) first ++ outbox w)
    as [first F].
  { destruct c as [l a | | t c]; cbn [invoke];
      [ apply publishTwist_appends | apply publishTwist_appends | now exists [] ]. }
  exists (later ++ first). rewrite L, F, C, map_app, app_assoc. reflexivity.
Qed.

Lemma pollGamepad_appends (gamepads : list (option (Gamepad num))) (w : World num) :
  exists cmds : list (num * num),
    outbox (pollGamepad linearMul angularMul gamepads w) =
    map (fun c => buildTwistStamped (fst c) (snd c) (clock w)) cmds ++ outbox w.
Proof.
  unfold pollGamepad. destruct (tracked gamepads w) as [gp |]; cbv zeta.
  - set (lin := if gt (Math_abs (axes1 gp)) lit_0_1 then _ else _).
    set (ang := if gt (Math_abs (axes0 gp)) lit_0_1 then _ else _).
    destruct (publishTwist_appends lin ang w) as [cmds E]. exists cmds.
    destruct (truthy lin || truthy ang);
      match goal with
      | |- context [gamepadIdxRef ?v] => destruct (gamepadIdxRef v)
      end; exact E.
  - exists []. now destruct (gamepadIdxRef w).
Qed.

Lemma step_appends (w : World num) (e : Event num) :
  exists cmds : list (num * num),
    outbox (step linearMul angularMul w e) =
    map (fun c => buildTwistStamped (fst c) (snd c) (clock w)) cmds ++ outbox w.
Proof.
  destruct e as [t | | | | | ev | | i | | gps]; cbn [step];
    try (exists []; now destruct (listening w)).
  - unfold joystickMove. destruct (Joystick.handleMove _ _ _ _ _) as [t calls].
    apply (invokeAll_appends calls (set_lastMoveTime t w)).
  - apply invokeAll_appends.
  - unfold animationFrame.
    change (outbox w) with (outbox (set_rafQueue 0 w)).
    change (clock w) with (clock (set_rafQueue 0 w)).
    generalize (set_rafQueue 0 w) as v. intros v.
    induction (rafQueue w) as [| n IH]; [ now exists [] | ].
    rewrite Nat.iter_succ. destruct IH as [before B].
    destruct (pollGamepad_appends gps
                (Nat.iter n (pollGamepad linearMul angularMul gps) v)) as [last L].
    destruct (iter_pollGamepad_frame linearMul angularMul gps n v) as (C & _).
    cbv zeta in C. exists (last ++ before).
    rewrite L, B, C, map_app, app_assoc. reflexivity.
Qed.

Lemma step_clock_frame (w : World num) (e : Event num) :
  clock (step linearMul angularMul w e) =
  match e with ClockAt t => Z.of_N t | _ => clock w end.
Proof.
  destruct e as [t | | | | | ev | | i | | gps]; cbn [step];
    try (now destruct (listening w)).
  - unfold joystickMove. destruct (Joystick.handleMove _ _ _ _ _) as [t calls].
    now destruct (invokeAll_frame calls (set_lastMoveTime t w)) as (-> & _).
  - unfold joystickStop.
    now destruct (invokeAll_frame Joystick.handleStop w) as (-> & _).
  - unfold animationFrame.
    now destruct (iter_pollGamepad_frame linearMul angularMul gps (rafQueue w)
                    (set_rafQueue 0 w)) as (-> & _).
Qed.


Lemma stamp_ns_now (lx az : num) (t : Z) :
  0 <= t -> Timing.stamp_ns (buildTwistStamped lx az t) = t * 10 ^ 6.
Proof.
  intros P. unfold Timing.stamp_ns, buildTwistStamped. cbn [header stamp].
  now destruct (getROSTimestamp_nonneg t P).
Qed.

(** What the sortedness argument carries along a trace. *)
Lemma step_stamps_sorted (w : World num) (e : Event num) :
  Timing.clock_monotone (clock w) [e] ->
  0 <= clock w
  /\ Forall (fun m => Timing.stamp_ns m <= clock w * 10 ^ 6) (outbox w)
  /\ StronglySorted (fun a b => Timing.stamp_ns b <= Timing.stamp_ns a) (outbox w) ->
  let w' := step linearMul angularMul w e in
  0 <= clock w'
  /\ Forall (fun m => Timing.stamp_ns m <= clock w' * 10 ^ 6) (outbox w')
  /\ StronglySorted (fun a b => Timing.stamp_ns b <= Timing.stamp_ns a) (outbox w').
Proof.
  intros M (P & B & S). cbv zeta.
  destruct (step_appends w e) as [cmds E]. rewrite E, step_clock_frame.
  assert (0 <= match e with ClockAt t => Z.of_N t | _ => clock w end
          /\ clock w <= match e with ClockAt t => Z.of_N t | _ => clock w end)
    as [P' G].
  { destruct e; cbn in M; lia. }
  split; [ exact P' | ].
  assert (Forall (fun m => Timing.stamp_ns m <= clock w * 10 ^ 6)
            (map (fun c => buildTwistStamped (fst c) (snd c) (clock w)) cmds)) as N.
  { apply Forall_forall. intros m I. apply in_map_iff in I as [c [<- _]].
    rewrite stamp_ns_now by exact P. lia. }
  split.
  - apply Forall_app. split; eapply Forall_impl; try eassumption;
      cbn beta; intros; lia.
  - clear E. induction cmds as [| c cmds IH]; [ exact S | ].
    cbn [map app]. inversion N as [| ? ? Nc Ncs]; subst.
    constructor; [ now apply IH | ].
    rewrite stamp_ns_now by exact P.
    apply Forall_app. split; [ | exact B ].
    apply Forall_forall. intros m I. apply in_map_iff in I as [c' [<- _]].
    rewrite stamp_ns_now by exact P. lia.
Qed.

(** While the clock readings never go back, the stamps of the outbox are
    in order: every message is stamped no earlier than the ones published
    before it. *)
Theorem stamps_in_order_while_clock_is_monotone (es : list (Event num)) :
  Timing.clock_monotone 0 es ->
  StronglySorted (fun a b => Timing.stamp_ns b <= Timing.stamp_ns a)
    (outbox (run linearMul angularMul es initial)).
Proof.
  assert (0 <= clock (@initial num)
          /\ Forall (fun m => Timing.stamp_ns m <= clock (@initial num) * 10 ^ 6)
               (outbox (@initial num))
          /\ StronglySorted (fun a b => Timing.stamp_ns b <= Timing.stamp_ns a)
               (outbox (@initial num))) as J.
  { cbn. repeat split; try constructor. lia. }
  change 0 with (clock (@initial num)) at 1.
  revert J. generalize (@initial num) as w.
  induction es as [| e es IH]; intros w J M; [ apply J | ].
  cbn [run fold_left]. fold (run linearMul angularMul es (step linearMul angularMul w e)).
  apply IH.
  - apply step_stamps_sorted; [ | exact J ]. destruct e; cbn in *; tauto.
  - rewrite step_clock_frame. destruct e; cbn in *; tauto.
Qed.
Lemma run_snoc (es : list (Event num)) (e : Event num) (w : World num) :
  run linearMul angularMul (es ++ [e]) w
  = step linearMul angularMul (run linearMul angularMul es w) e.
Proof. unfold run. now rewrite fold_left_app. Qed.

(** Along a trace from the first render the clock shows 0 or the last
    reading delivered, and every message of the outbox is the wire record
    of some command at one of the readings of the trace. *)
Lemma run_stamped_at_readings (es : list (Event num)) :
  let w := run linearMul angularMul es initial in
  (exists t : N, (t = 0%N \/ In (ClockAt t) es) /\ clock w = Z.of_N t)
  /\ Forall (fun m => exists lin ang (t : N),
                 (t = 0%N \/ In (ClockAt t) es) /\ m = Spec.wire lin ang (Z.of_N t))
       (outbox w).
Proof.
  induction es as [| e es IH] using rev_ind; cbv zeta.
  - split; [ exists 0%N; auto | constructor ].
  - rewrite run_snoc. cbv zeta in IH. destruct IH as [(t & I & C) F].
    set (w := run linearMul angularMul es initial) in *.
    split.
    + rewrite step_clock_frame.
      destruct e; try (exists t; split; [ | exact C ];
                       destruct I as [I | I]; [ now left | right; apply in_or_app; now left ]).
      eexists. split; [ right; apply in_or_app; right; left; reflexivity | reflexivity ].
    + destruct (step_appends w e) as [cmds E]. rewrite E. apply Forall_app. split.
      * apply Forall_forall. intros m M. apply in_map_iff in M as [c [<- _]].
        exists (fst c), (snd c), t. split.
        -- destruct I as [I | I]; [ now left | right; apply in_or_app; now left ].
        -- rewrite C. apply buildTwistStamped_wire. lia.
      * eapply Forall_impl; [ | exact F ]. cbn beta.
        intros m (lin & ang & u & [U | U] & M); exists lin, ang, u;
          (split; [ | exact M ]); [ now left | right; apply in_or_app; now left ].
Qed.

(** C9.  Every message handed to the topic has the wire shape, built from
    the command and from the clock reading at which it is published.  The
    builder returns frame_id "base_link", the stamp
    [sec = floor(ms / 1000)], [nanosec = (ms mod 1000) * 10^6] of the
    reading [ms], the linear velocity in [linear.x], the angular velocity
    in [angular.z] and literal zeros elsewhere, with [nanosec] in
    [0, 10^9).  On every page reached from the first render the clock is
    not negative; [publishTwist], called with a command by the joystick's
    [onMove], by its [onEnd] with (0, 0) and by a poll tick with the
    deadzoned command, puts in front of the outbox exactly the wire record
    of that command at the current reading (or nothing without a topic);
    whatever an event adds to the outbox is such a record at the current
    reading; and every message of the outbox is the wire record of a
    command at one of the readings the clock has shown. *)
Theorem published_messages_have_wire_shape
    (es : list (Event num)) (e : Event num) (lx az : num)
    (gamepads : list (option (Gamepad num))) :
  let w := run linearMul angularMul es initial in
  let sent (lin ang : num) :=
    match cmdVelRef w with
    | Some _ => Spec.wire lin ang (clock w) :: outbox w
    | None => outbox w
    end in
  (forall (linX angZ : num) (ms : Z), 0 <= ms ->
     buildTwistStamped linX angZ ms
     = {| header := {| frame_id := "base_link";
                       stamp := {| sec := ms / 1000;
                                   nanosec := (ms mod 1000) * 10 ^ 6 |} |};
          twist := {| linear := {| x := linX; y := lit_0; z := lit_0 |};
                      angular := {| x := lit_0; y := lit_0; z := angZ |} |} |}
     /\ 0 <= (ms mod 1000) * 10 ^ 6 < 10 ^ 9)
  /\ 0 <= clock w
  /\ outbox (publishTwist lx az w) = sent lx az
  /\ outbox (invoke (Joystick.onMove lx az) w) = sent lx az
  /\ outbox (invoke Joystick.onEnd w) = sent lit_0 lit_0
  /\ (forall gp, tracked gamepads w = Some gp ->
        outbox (pollGamepad linearMul angularMul gamepads w)
        = sent (fst (padCommand gp (linearMul, angularMul)))
               (snd (padCommand gp (linearMul, angularMul))))
  /\ (exists cmds : list (num * num),
        outbox (step linearMul angularMul w e)
        = map (fun c => Spec.wire (fst c) (snd c) (clock w)) cmds ++ outbox w)
  /\ Forall (fun m => exists lin ang (t : N),
                 (t = 0%N \/ In (ClockAt t) es)
                 /\ m = Spec.wire lin ang (Z.of_N t)
                 /\ 0 <= nanosec (stamp (header m)) < 10 ^ 9)
       (outbox w).
Proof.
  intros w sent.
  destruct (run_stamped_at_readings es) as [(t & I & C) F]. fold w in C, F.
  assert (0 <= clock w) as P by (rewrite C; lia).
  assert (forall lin ang, outbox (publishTwist lin ang w) = sent lin ang) as S.
  { intros lin ang. subst sent. unfold publishTwist.
    destruct (cmdVelRef w); [ | reflexivity ].
    cbn. now rewrite (proj1 (buildTwistStamped_wire lin ang (clock w) P)). }
  split.
  { intros linX angZ ms M. destruct (buildTwistStamped_wire linX angZ ms M) as [E B].
    split; [ exact E | ].
    unfold buildTwistStamped, getROSTimestamp in B. cbn [nanosec stamp header] in B.
    rewrite Z.rem_mod_nonneg in B by lia. exact B. }
  split; [ exact P | ].
  split; [ apply S | ].
  split; [ apply S | ].
  split; [ apply S | ].
  split.
  { intros gp T. rewrite <- S. unfold pollGamepad, padCommand. rewrite T. cbv zeta.
    cbn [fst snd].
    set (lin := if gt (Math_abs (axes1 gp)) lit_0_1 then _ else _).
    set (ang := if gt (Math_abs (axes0 gp)) lit_0_1 then _ else _).
    destruct (truthy lin || truthy ang);
      match goal with
      | |- context [gamepadIdxRef ?v] => destruct (gamepadIdxRef v)
      end; reflexivity. }
  split.
  { destruct (step_appends w e) as [cmds E]. exists cmds. rewrite E. f_equal.
    apply map_ext. intros c. apply buildTwistStamped_wire. exact P. }
  eapply Forall_impl; [ | exact F ]. cbn beta.
  intros m (lin & ang & u & U & ->). exists lin, ang, u.
  split; [ exact U | ]. split; [ reflexivity | ].
  rewrite <- (proj1 (buildTwistStamped_wire lin ang (Z.of_N u) ltac:(lia))).
  apply buildTwistStamped_wire. lia.
Qed.
End Appending.

Lemma stamps_in_order_while_clock_is_monotone_witness :
  StronglySorted (fun a b => Timing.stamp_ns b <= Timing.stamp_ns a)
    (outbox (run 0.5%float 1%float (EffectRun :: ClockAt 1000 :: burst) initial))
  /\ map Timing.stamp_ns
       (outbox (run 0.5%float 1%float (EffectRun :: ClockAt 1000 :: burst) initial))
     = [1080000000; 1040000000; 1000000000].
Proof.
  split; [ | reflexivity ].
  apply (stamps_in_order_while_clock_is_monotone 0.5%float 1%float).
  cbn. lia.
Defined.

(* ------------------------------------------------------------------ *)
(** ** Further properties: loops per frame, link events and indicators *)

Section FramesAndStatus.
Context {num : Type} `{JSNumber num}.
Variables linearMul angularMul : num.


Lemma step_listening (w : World num) (e : Event num) :
  listening w = true -> listening (step linearMul angularMul w e) = true.
Proof.
  intros L. destruct e as [t | | | | | ev | | i | | gps]; cbn [step];
    try (rewrite ?L; cbn; now rewrite ?L).
  - unfold joystickMove. destruct (Joystick.handleMove _ _ _ _ _) as [t calls].
    now destruct (invokeAll_frame calls (set_lastMoveTime t w)) as (_ & _ & _ & _ & -> & _).
  - unfold joystickStop.
    now destruct (invokeAll_frame Joystick.handleStop w) as (_ & _ & _ & _ & -> & _).
  - unfold animationFrame.
    now destruct (iter_pollGamepad_frame linearMul angularMul gps (rafQueue w)
                    (set_rafQueue 0 w)) as (_ & _ & _ & _ & ->).
Qed.

Lemma mounted_listening (es : list (Event num)) :
  listening (run linearMul angularMul es mounted) = true.
Proof.
  unfold run. assert (listening (@mounted num) = true) as L by reflexivity.
  revert L. generalize (@mounted num) as w.
  induction es as [| e es IH]; intros w L; [ exact L | ].
  cbn [fold_left]. apply IH. now apply step_listening.
Qed.

Lemma step_webStatus (w : World num) (e : Event num) :
  Timing.is_ros_event e = false ->
  webStatus (step linearMul angularMul w e) = webStatus w.
Proof.
  intros R. destruct e as [t | | | | | ev | | i | | gps]; try discriminate;
    cbn [step]; try (now destruct (listening w)).
  - unfold joystickMove, Joystick.handleMove.
    destruct (Joystick.x ev), (Joystick.y ev); try reflexivity.
    destruct (_ <? 30); [ reflexivity | ]. cbv zeta.
    destruct (_ || _); [ | reflexivity ].
    cbn [invokeAll fold_left invoke]. unfold handleJoystickStatusUpdate, handleJoystickMove.
    cbn [webStatus setTwistStatus].
    now match goal with |- context [publishTwist ?l ?a ?v] =>
      destruct (publishTwist_frame l a v) as (_ & _ & _ & _ & -> & _) end.
  - unfold joystickStop, Joystick.handleStop.
    cbn [invokeAll fold_left invoke]. unfold handleJoystickStatusUpdate, handleJoystickEnd.
    cbn [webStatus setTwistStatus].
    now match goal with |- context [publishTwist ?l ?a ?v] =>
      destruct (publishTwist_frame l a v) as (_ & _ & _ & _ & -> & _) end.
  - unfold animationFrame. change (webStatus w) with (webStatus (set_rafQueue 0 w)).
    generalize (set_rafQueue 0 w) as v. intros v.
    induction (rafQueue w) as [| n IH]; [ reflexivity | ].
    rewrite Nat.iter_succ. rewrite <- IH.
    generalize (Nat.iter n (pollGamepad linearMul angularMul gps) v) as u. intros u.
    unfold pollGamepad. destruct (tracked gps u) as [gp |]; cbv zeta.
    + set (lin := if gt (Math_abs (axes1 gp)) lit_0_1 then _ else _).
      set (ang := if gt (Math_abs (axes0 gp)) lit_0_1 then _ else _).
      destruct (publishTwist_frame lin ang u) as (_ & _ & _ & _ & W & _).
      destruct (truthy lin || truthy ang);
        match goal with
        | |- context [gamepadIdxRef ?v] => destruct (gamepadIdxRef v)
        end; exact W.
    + now destruct (gamepadIdxRef u).
Qed.

(** Link events and input events keep to their own indicators.  A
    connection, error or close event changes the two statuses and nothing
    else: the topic reference, the tracked gamepad, the scheduled loops,
    the throttle timer and the outbox are as before.  No other event changes
    the link status.  So after the link closes a release is still handed to
    the topic, and it turns the activity status from Disconnected to Idle
    while the link status stays Disconnected. *)
Theorem link_events_touch_statuses_only (es : list (Event num)) :
  (forall w e, Timing.is_ros_event e = true ->
     let w' := step linearMul angularMul w e in
     clock w' = clock w /\ cmdVelRef w' = cmdVelRef w
     /\ gamepadIdxRef w' = gamepadIdxRef w /\ lastMoveTime w' = lastMoveTime w
     /\ listening w' = listening w /\ rafQueue w' = rafQueue w
     /\ outbox w' = outbox w)
  /\ (forall w e, Timing.is_ros_event e = false ->
        webStatus (step linearMul angularMul w e) = webStatus w)
  /\ (let w := run linearMul angularMul es mounted in
      let closed := step linearMul angularMul w RosClose in
      let released := step linearMul angularMul closed JoystickStop in
      twistStatus closed = {| text := Disconnected; color := "#fa0" |}
      /\ outbox released = buildTwistStamped lit_0 lit_0 (clock w) :: outbox w
      /\ twistStatus released = {| text := Idle; color := "#ccc" |}
      /\ webStatus released = {| text := Disconnected; color := "#fa0" |}).
Proof.
  split; [ | split ].
  - intros w e R. destruct e; try discriminate; cbn [step]; cbv zeta;
      destruct (listening w) eqn:L; cbn; rewrite ?L; auto 10.
  - intros w e. apply step_webStatus.
  - cbv zeta. set (w := run linearMul angularMul es mounted).
    assert (listening w = true) as L by apply mounted_listening.
    assert (cmdVelRef w = Some cmdVel) as C by apply mounted_cmdVelRef.
    cbn [step]. rewrite L.
    rewrite (joystickStop_set cmdVel) by exact C.
    cbn. auto.
Qed.

Lemma invokeAll_null (cs : list (Joystick.Call num)) (w : World num) :
  cmdVelRef w = None -> outbox (invokeAll cs w) = outbox w.
Proof.
  revert w. induction cs as [| c cs IH]; intros w N; [ reflexivity | ].
  cbn [invokeAll fold_left]. fold (invokeAll cs (invoke c w)).
  destruct (invoke_frame c w) as (_ & C & _). cbv zeta in C.
  rewrite IH by (rewrite C; exact N).
  destruct c as [l a | | t c]; cbn [invoke];
    unfold handleJoystickMove, handleJoystickEnd;
    rewrite ?publishTwist_null by exact N; reflexivity.
Qed.

Lemma pollGamepad_null (gamepads : list (option (Gamepad num))) (w : World num) :
  cmdVelRef w = None ->
  outbox (pollGamepad linearMul angularMul gamepads w) = outbox w.
Proof.
  intros N. unfold pollGamepad. destruct (tracked gamepads w) as [gp |]; cbv zeta.
  - rewrite publishTwist_null by exact N.
    destruct (_ || _); cbn [gamepadIdxRef setTwistStatus];
      now destruct (gamepadIdxRef w).
  - now destruct (gamepadIdxRef w).
Qed.

(** Without a topic no event publishes, and only the effect creates one. *)
Lemma step_null (w : World num) (e : Event num) :
  cmdVelRef w = None ->
  outbox (step linearMul angularMul w e) = outbox w
  /\ (e <> EffectRun -> cmdVelRef (step linearMul angularMul w e) = None).
Proof.
  intros N. destruct e as [t | | | | | ev | | i | | gps]; cbn [step];
    try (destruct (listening w); (split; [ reflexivity | intros _; exact N ]));
    try (split; [ reflexivity | intros _; exact N ]).
  - split; [ reflexivity | intros D; now elim D ].
  - unfold joystickMove. destruct (Joystick.handleMove _ _ _ _ _) as [t calls].
    destruct (invokeAll_frame calls (set_lastMoveTime t w)) as (_ & C & _).
    split; [ now rewrite invokeAll_null | intros _; now rewrite C ].
  - unfold joystickStop.
    destruct (invokeAll_frame Joystick.handleStop w) as (_ & C & _).
    split; [ now rewrite invokeAll_null | intros _; now rewrite C ].
  - unfold animationFrame. split.
    + change (outbox w) with (outbox (set_rafQueue 0 w)).
      assert (cmdVelRef (set_rafQueue 0 w) = None) as N0 by exact N.
      revert N0. generalize (set_rafQueue 0 w) as v. intros v N0.
      induction (rafQueue w) as [| n IH]; [ reflexivity | ].
      rewrite Nat.iter_succ, pollGamepad_null; [ exact IH | ].
      now destruct (iter_pollGamepad_frame linearMul angularMul gps n v) as (_ & -> & _).
    + intros _.
      now destruct (iter_pollGamepad_frame linearMul angularMul gps (rafQueue w)
                      (set_rafQueue 0 w)) as (_ & -> & _).
Qed.

Lemma run_null (es : list (Event num)) (w : World num) :
  cmdVelRef w = None -> Forall (fun e => e <> EffectRun) es ->
  cmdVelRef (run linearMul angularMul es w) = None
  /\ outbox (run linearMul angularMul es w) = outbox w.
Proof.
  revert w. induction es as [| e es IH]; intros w N F; [ auto | ].
  inversion F as [| ? ? Fe Fes]; subst.
  destruct (step_null w e N) as [O C].
  cbn [run fold_left]. fold (run linearMul angularMul es (step linearMul angularMul w e)).
  destruct (IH (step linearMul angularMul w e) (C Fe) Fes) as [C' O'].
  split; [ exact C' | now rewrite O' ].
Qed.

(** C7, as amended.  A call of [publishTwist] is silent (it returns the
    page as it was: nothing sent, no state changed, and there is no error
    result) exactly when the topic reference is null, and the joystick's
    handlers built on it inherit this.  The reference is null until the
    effect runs, and until then no event publishes anything.  Once the
    effect has run the reference is set for good: after any events, and
    also right after the link closed or failed, a call hands its message
    to the topic. *)
Theorem publishTwist_silent_exactly_without_topic
    (es : list (Event num)) (lx az : num) :
  (forall w : World num,
     (publishTwist lx az w = w <-> cmdVelRef w = None)
     /\ (cmdVelRef w = None ->
         handleJoystickMove lx az w = w /\ handleJoystickEnd w = w))
  /\ (Forall (fun e => e <> EffectRun) es ->
      cmdVelRef (run linearMul angularMul es initial) = None
      /\ outbox (run linearMul angularMul es initial) = [])
  /\ (let w := run linearMul angularMul es mounted in
      let closed := step linearMul angularMul w RosClose in
      let failed := step linearMul angularMul w RosError in
      cmdVelRef w = Some cmdVel
      /\ outbox (publishTwist lx az w) = buildTwistStamped lx az (clock w) :: outbox w
      /\ text (webStatus closed) = Disconnected
      /\ outbox (publishTwist lx az closed)
         = buildTwistStamped lx az (clock w) :: outbox w
      /\ text (webStatus failed) = Error
      /\ outbox (publishTwist lx az failed)
         = buildTwistStamped lx az (clock w) :: outbox w).
Proof.
  split.
  { intros w. split; [ apply publishTwist_same | ].
    intros N. unfold handleJoystickMove, handleJoystickEnd.
    now rewrite !publishTwist_null by exact N. }
  split.
  { intros F. now apply run_null. }
  cbv zeta. set (w := run linearMul angularMul es mounted).
  assert (listening w = true) as L by apply mounted_listening.
  assert (cmdVelRef w = Some cmdVel) as C by apply mounted_cmdVelRef.
  cbn [step]. rewrite L. unfold publishTwist. cbn. rewrite C. cbn. auto 8.
Qed.
End FramesAndStatus.

(** C7, as stated, fails: once the link has closed the transport is not
    connected, yet [publishTwist] still hands its message to the topic, so
    the release that follows is published. *)
Lemma publish_after_close_reaches_topic :
  ~ Spec.silent_while_disconnected 0.5%float 1%float
      [RosConnection; ClockAt 1000; RosClose]
  /\ text (webStatus (run 0.5%float 1%float
                        [RosConnection; ClockAt 1000; RosClose] mounted))
     = Disconnected
  /\ outbox (run 0.5%float 1%float
               [RosConnection; ClockAt 1000; RosClose; JoystickStop] mounted)
     = [buildTwistStamped 0%float 0%float 1000].
Proof.
  split; [ | split; reflexivity ].
  unfold Spec.silent_while_disconnected. intros S.
  specialize (S ltac:(discriminate) 0%float 0%float).
  apply (f_equal (fun w => List.length (outbox w))) in S. discriminate.
Qed.

Section Palette.
Context {num : Type} `{JSNumber num}.
Variables linearMul angularMul : num.

(** The statuses the page can show. *)
Lemma step_status_palette (w : World num) (e : Event num) :
  let twist_ok s :=
    s = {| text := Pending; color := "#ccc" |}
    \/ s = {| text := Idle; color := "#ccc" |}
    \/ s = {| text := Active; color := "#00ffcc" |}
    \/ s = {| text := Error; color := "#f55" |}
    \/ s = {| text := Disconnected; color := "#fa0" |} in
  let web_ok s :=
    s = {| text := Connecting; color := "#00ffcc" |}
    \/ s = {| text := Connected; color := "#00ffcc" |}
    \/ s = {| text := Error; color := "#f55" |}
    \/ s = {| text := Disconnected; color := "#fa0" |} in
  twist_ok (twistStatus w) /\ web_ok (webStatus w) ->
  twist_ok (twistStatus (step linearMul angularMul w e))
  /\ web_ok (webStatus (step linearMul angularMul w e)).
Proof.
  intros twist_ok web_ok [Tw We].
  destruct (Timing.is_ros_event e) eqn:R.
  - destruct e; try discriminate; cbn [step]; destruct (listening w);
      subst twist_ok web_ok; cbn; auto 10.
  - rewrite (step_webStatus linearMul angularMul w e R). split; [ | exact We ].
    destruct e as [t | | | | | ev | | i | | gps]; try discriminate; cbn [step];
      try (destruct (listening w); exact Tw); try exact Tw.
    + unfold joystickMove, Joystick.handleMove.
      destruct (Joystick.x ev), (Joystick.y ev); try exact Tw.
      destruct (_ <? 30); [ exact Tw | ]. cbv zeta.
      destruct (_ || _); [ | exact Tw ].
      subst twist_ok. cbn. auto.
    + subst twist_ok. cbn. auto.
    + unfold animationFrame.
      assert (twist_ok (twistStatus (set_rafQueue 0 w))) as T0 by exact Tw.
      revert T0. generalize (set_rafQueue 0 w) as v. intros v T0.
      induction (rafQueue w) as [| n IH]; [ exact T0 | ].
      rewrite Nat.iter_succ.
      revert IH. generalize (Nat.iter n (pollGamepad linearMul angularMul gps) v) as u.
      intros u Tu. unfold pollGamepad. destruct (tracked gps u) as [gp |]; cbv zeta.
      * destruct (_ || _);
          match goal with
          | |- context [gamepadIdxRef ?v] => destruct (gamepadIdxRef v)
          end; subst twist_ok; cbn; auto.
      * now destruct (gamepadIdxRef u).
Qed.

(** What the two dots of the header show, along every trace from the first
    render: the activity dot is green exactly when the activity status is
    Active, and grey for Pending, Idle, Error and Disconnected alike; the
    link dot is cyan exactly while the link status is Connecting or
    Connected, and red for Error and Disconnected alike (the colours
    '#f55', '#fa0' and '#ccc' themselves are never drawn). *)
Theorem dots_show_active_and_connected_only (es : list (Event num)) :
  let w := run linearMul angularMul es initial in
  (Render.twistDot (twistStatus w) = "bg-green-400 shadow"%string
   <-> text (twistStatus w) = Active)
  /\ (Render.twistDot (twistStatus w) = "bg-gray-500"%string
      <-> text (twistStatus w) <> Active)
  /\ (Render.webDot (webStatus w) = "bg-cyan-400 shadow"%string
      <-> text (webStatus w) = Connecting \/ text (webStatus w) = Connected)
  /\ (Render.webDot (webStatus w) = "bg-red-500"%string
      <-> text (webStatus w) = Error \/ text (webStatus w) = Disconnected).
Proof.
  cbv zeta.
  assert ((twistStatus (run linearMul angularMul es initial)
           = {| text := Pending; color := "#ccc" |}
           \/ twistStatus (run linearMul angularMul es initial)
              = {| text := Idle; color := "#ccc" |}
           \/ twistStatus (run linearMul angularMul es initial)
              = {| text := Active; color := "#00ffcc" |}
           \/ twistStatus (run linearMul angularMul es initial)
              = {| text := Error; color := "#f55" |}
           \/ twistStatus (run linearMul angularMul es initial)
              = {| text := Disconnected; color := "#fa0" |})
          /\ (webStatus (run linearMul angularMul es initial)
              = {| text := Connecting; color := "#00ffcc" |}
              \/ webStatus (run linearMul angularMul es initial)
                 = {| text := Connected; color := "#00ffcc" |}
              \/ webStatus (run linearMul angularMul es initial)
                 = {| text := Error; color := "#f55" |}
              \/ webStatus (run linearMul angularMul es initial)
                 = {| text := Disconnected; color := "#fa0" |})) as [Tw We].
  { unfold run.
    assert ((twistStatus (@initial num) = {| text := Pending; color := "#ccc" |}
             \/ twistStatus (@initial num) = {| text := Idle; color := "#ccc" |}
             \/ twistStatus (@initial num) = {| text := Active; color := "#00ffcc" |}
             \/ twistStatus (@initial num) = {| text := Error; color := "#f55" |}
             \/ twistStatus (@initial num) = {| text := Disconnected; color := "#fa0" |})
            /\ (webStatus (@initial num) = {| text := Connecting; color := "#00ffcc" |}
                \/ webStatus (@initial num) = {| text := Connected; color := "#00ffcc" |}
                \/ webStatus (@initial num) = {| text := Error; color := "#f55" |}
                \/ webStatus (@initial num) = {| text := Disconnected; color := "#fa0" |}))
      as I by (cbn; auto).
    revert I. generalize (@initial num) as w.
    induction es as [| e es IH]; intros w I; [ exact I | ].
    cbn [fold_left]. apply IH. now apply (step_status_palette w e). }
  repeat split;
    repeat match goal with
           | D : _ \/ _ |- _ => destruct D as [D | D]
           end;
    rewrite ?Tw, ?We; cbn; intros; try discriminate; try reflexivity; auto;
    repeat match goal with
           | D : _ \/ _ |- _ => destruct D as [D | D]
           end; try discriminate; try congruence.
Qed.
End Palette.

(* ------------------------------------------------------------------ *)
(** ** The full page and the pipeline model *)

Section Erasure.
Context {num : Type} `{JSNumber num} `{Full.JSNumberMore num}.

(** What a handler of the full page does to the pipeline's page. *)
Lemma full_invoke_world (c : Joystick.Call num) (p : Full.Page num) :
  Full.world (Full.invoke c p) = invoke c (Full.world p)
  /\ Full.linearMul (Full.invoke c p) = Full.linearMul p
  /\ Full.angularMul (Full.invoke c p) = Full.angularMul p
  /\ Full.loops (Full.invoke c p) = Full.loops p
  /\ Full.sensorData (Full.invoke c p) = Full.sensorData p.
Proof.
  destruct c as [l a | | s c]; cbn [Full.invoke invoke].
  - unfold Full.handleJoystickMove. cbv zeta.
    destruct (_ || _); cbn; auto.
  - cbn; auto.
  - cbn; auto.
Qed.

Lemma full_invokeAll_world (cs : list (Joystick.Call num)) (p : Full.Page num) :
  Full.world (Full.invokeAll cs p) = invokeAll cs (Full.world p)
  /\ Full.linearMul (Full.invokeAll cs p) = Full.linearMul p
  /\ Full.angularMul (Full.invokeAll cs p) = Full.angularMul p
  /\ Full.loops (Full.invokeAll cs p) = Full.loops p
  /\ Full.sensorData (Full.invokeAll cs p) = Full.sensorData p.
Proof.
  revert p. induction cs as [| c cs IH]; intros p; [ cbn; auto | ].
  cbn [Full.invokeAll invokeAll fold_left].
  fold (Full.invokeAll cs (Full.invoke c p)). fold (invokeAll cs (invoke c (Full.world p))).
  destruct (IH (Full.invoke c p)) as (-> & -> & -> & -> & ->).
  destruct (full_invoke_world c p) as (-> & -> & -> & -> & ->). auto.
Qed.

Lemma full_joystickMove_world (event : Joystick.MoveEvent num) (p : Full.Page num) :
  Full.world (Full.joystickMove event p)
  = joystickMove (Full.linearMul p) (Full.angularMul p) event (Full.world p)
  /\ Full.linearMul (Full.joystickMove event p) = Full.linearMul p
  /\ Full.angularMul (Full.joystickMove event p) = Full.angularMul p
  /\ Full.loops (Full.joystickMove event p) = Full.loops p
  /\ Full.sensorData (Full.joystickMove event p) = Full.sensorData p.
Proof.
  unfold Full.joystickMove, joystickMove.
  destruct (Joystick.handleMove _ _ _ _ _) as [time calls].
  apply (full_invokeAll_world calls
           (Full.set_world (set_lastMoveTime time (Full.world p)) p)).
Qed.

Lemma full_pollGamepad_world (c : num * num)
    (gamepads : list (option (Gamepad num))) (p : Full.Page num) :
  Full.world (Full.pollGamepad c gamepads p)
  = pollGamepad (fst c) (snd c) gamepads (Full.world p)
  /\ Full.linearMul (Full.pollGamepad c gamepads p) = Full.linearMul p
  /\ Full.angularMul (Full.pollGamepad c gamepads p) = Full.angularMul p
  /\ Full.loops (Full.pollGamepad c gamepads p)
     = Full.loops p
       ++ match gamepadIdxRef (Full.world p) with Some _ => [c] | None => [] end
  /\ Full.sensorData (Full.pollGamepad c gamepads p) = Full.sensorData p.
Proof.
  unfold Full.pollGamepad, pollGamepad.
  destruct (tracked gamepads (Full.world p)) as [gp |]; cbv zeta.
  - set (lin := if gt (Math_abs (axes1 gp)) lit_0_1 then _ else _).
    set (ang := if gt (Math_abs (axes0 gp)) lit_0_1 then _ else _).
    destruct (publishTwist_frame lin ang (Full.world p)) as (_ & _ & I & _).
    cbv zeta in I.
    destruct (truthy lin || truthy ang);
      cbn [Full.world Full.logDebug Full.setTerminalOutput Full.set_world
           gamepadIdxRef setTwistStatus];
      rewrite I; destruct (gamepadIdxRef (Full.world p)); cbn;
      rewrite ?app_nil_r; auto.
  - destruct (gamepadIdxRef (Full.world p)); cbn; rewrite ?app_nil_r; auto.
Qed.

Lemma fold_left_repeat_iter {A B : Type} (f : A -> B -> A) (c : B) (n : nat) (a : A) :
  fold_left f (repeat c n) a = Nat.iter n (fun q => f q c) a.
Proof.
  revert a. induction n as [| n IH]; intros a; [ reflexivity | ].
  cbn [repeat fold_left]. rewrite IH. symmetry. apply Nat.iter_succ_r.
Qed.

Lemma full_iter_pollGamepad (c : num * num)
    (gamepads : list (option (Gamepad num))) (n : nat) (p : Full.Page num) :
  let q := Nat.iter n (fun q => Full.pollGamepad c gamepads q) p in
  Full.world q = Nat.iter n (pollGamepad (fst c) (snd c) gamepads) (Full.world p)
  /\ Full.linearMul q = Full.linearMul p
  /\ Full.angularMul q = Full.angularMul p
  /\ Full.loops q
     = Full.loops p
       ++ match gamepadIdxRef (Full.world p) with
          | Some _ => repeat c n
          | None => []
          end.
Proof.
  induction n as [| n IH]; cbv zeta.
  - cbn. destruct (gamepadIdxRef (Full.world p)); now rewrite app_nil_r.
  - rewrite !Nat.iter_succ. cbv zeta in IH. destruct IH as (W & L & A & Q).
    destruct (full_pollGamepad_world c gamepads
                (Nat.iter n (fun q => Full.pollGamepad c gamepads q) p))
      as (-> & -> & -> & -> & _).
    rewrite W, L, A, Q.
    destruct (iter_pollGamepad_frame (fst c) (snd c) gamepads n (Full.world p))
      as (_ & _ & -> & _).
    repeat split.
    destruct (gamepadIdxRef (Full.world p)); rewrite <- app_assoc; [ | reflexivity ].
    f_equal. symmetry. apply repeat_cons.
Qed.

Lemma full_animationFrame_uniform (linearMul angularMul : num)
    (gamepads : list (option (Gamepad num))) (p : Full.Page num) :
  uniform linearMul angularMul p ->
  Full.world (Full.animationFrame gamepads p)
  = animationFrame linearMul angularMul gamepads (Full.world p)
  /\ uniform linearMul angularMul (Full.animationFrame gamepads p).
Proof.
  intros (L & A & Q). unfold Full.animationFrame, animationFrame, uniform.
  rewrite Q, fold_left_repeat_iter.
  destruct (full_iter_pollGamepad (linearMul, angularMul) gamepads
              (rafQueue (Full.world p))
              (Full.set_loops [] (Full.set_world (set_rafQueue 0 (Full.world p)) p)))
    as (W & L' & A' & Q').
  cbv zeta in W, L', A', Q'. rewrite W, L', A', Q'. cbn [fst snd Full.world
    Full.set_loops Full.set_world Full.linearMul Full.angularMul Full.loops app
    gamepadIdxRef set_rafQueue].
  repeat split; try assumption.
  rewrite iter_pollGamepad_queue. cbn [gamepadIdxRef set_rafQueue rafQueue].
  destruct (gamepadIdxRef (Full.world p)); [ now rewrite Nat.add_0_r | reflexivity ].
Qed.

Lemma full_step_uniform (linearMul angularMul : num) (p : Full.Page num)
    (e : Full.Event num) (e' : Event num) :
  uniform linearMul angularMul p -> erase e = Some e' ->
  Full.world (Full.step p e) = step linearMul angularMul (Full.world p) e'
  /\ uniform linearMul angularMul (Full.step p e).
Proof.
  intros U E. pose proof U as (L & A & Q).
  destruct e as [time | | | detail | | event | | index id | | gamepads | v | v];
    cbn in E; try discriminate; injection E as <-; cbn [Full.step step].
  - split; [ reflexivity | exact U ].
  - split; [ reflexivity | exact U ].
  - destruct (listening (Full.world p)); split; try reflexivity; exact U.
  - destruct (listening (Full.world p)); split; try reflexivity; exact U.
  - destruct (listening (Full.world p)); split; try reflexivity; exact U.
  - destruct (full_joystickMove_world event p) as (W & L' & A' & Q' & _).
    rewrite L, A in W. split; [ exact W | ].
    unfold uniform. rewrite L', A', Q', W.
    pose proof (step_queue linearMul angularMul (Full.world p) (JoystickMove event))
      as R. cbn [step] in R. rewrite R. auto.
  - destruct (full_invokeAll_world Joystick.handleStop p) as (W & L' & A' & Q' & _).
    split; [ exact W | ].
    unfold uniform, Full.joystickStop. rewrite L', A', Q', W.
    pose proof (step_queue linearMul angularMul (Full.world p) JoystickStop) as R.
    cbn [step] in R. unfold joystickStop in R. rewrite R. auto.
  - destruct (listening (Full.world p)); [ | split; [ reflexivity | exact U ] ].
    split; [ reflexivity | ].
    unfold uniform. cbn. rewrite L, A, Q. repeat split. symmetry. apply repeat_cons.
  - destruct (listening (Full.world p)); split; try reflexivity; exact U.
  - now apply full_animationFrame_uniform.
Qed.

(** The pipeline model is the full page with the log erased: as long as no
    slider is moved, the terminal, the log throttle and the Robot Status
    panel change nothing of what the pipeline does, and the pipeline's page
    after a trace is the one the pipeline model computes for the
    multipliers of the render. *)
Theorem full_page_erases_to_pipeline (linearMul angularMul : num)
    (es : list (Full.Event num)) (p : Full.Page num) :
  uniform linearMul angularMul p -> sliders_untouched es ->
  Full.world (Full.run es p)
  = run linearMul angularMul (erase_all es) (Full.world p).
Proof.
  revert p. induction es as [| e es IH]; intros p U S; [ reflexivity | ].
  inversion S as [| ? ? Se Ses]; subst.
  cbn [Full.run fold_left erase_all]. fold (Full.run es (Full.step p e)).
  destruct (erase e) as [e' |] eqn:E; [ | now elim Se ].
  destruct (full_step_uniform linearMul angularMul p e e' U E) as [W U'].
  rewrite (IH (Full.step p e) U' Ses), W. reflexivity.
Qed.
End Erasure.

Lemma full_page_erases_to_pipeline_witness :
  uniform 0.5%float 1%float Full.initial
  /\ sliders_untouched full_session
  /\ Full.world (Full.run full_session Full.initial)
     = run 0.5%float 1%float (erase_all full_session) initial.
Proof.
  assert (uniform 0.5%float 1%float Full.initial) as U by (repeat split).
  assert (sliders_untouched full_session) as S
      by (unfold full_session; repeat constructor; discriminate).
  split; [ exact U | ]. split; [ exact S | ].
  exact (full_page_erases_to_pipeline 0.5%float 1%float full_session Full.initial U S).
Defined.

Section StaleClosures.
Context {num : Type} `{JSNumber num} `{Full.JSNumberMore num}.

Lemma full_frame_outbox (gamepads : list (option (Gamepad num))) (gp : Gamepad num)
    (cs : list (num * num)) (p : Full.Page num) :
  cmdVelRef (Full.world p) = Some cmdVel ->
  tracked gamepads (Full.world p) = Some gp ->
  let q := fold_left (fun p c => Full.pollGamepad c gamepads p) cs p in
  outbox (Full.world q)
  = rev (map (fun c => buildTwistStamped (fst (padCommand gp c)) (snd (padCommand gp c))
                         (clock (Full.world p))) cs)
    ++ outbox (Full.world p)
  /\ Full.loops q = Full.loops p ++ cs
  /\ Full.linearMul q = Full.linearMul p
  /\ Full.angularMul q = Full.angularMul p.
Proof.
  revert p. induction cs as [| c cs IH]; intros p C T; cbv zeta.
  - cbn. now rewrite app_nil_r.
  - cbn [fold_left map rev].
    destruct (full_pollGamepad_world c gamepads p) as (W & L & A & Q & _).
    destruct (tracked_index gamepads (Full.world p) gp T) as [i I].
    rewrite I in Q.
    pose proof (pollGamepad_present (fst c) (snd c) gamepads (Full.world p)
                  cmdVel gp C T) as P. cbv zeta in P. rewrite P in W. clear P.
    destruct (IH (Full.pollGamepad c gamepads p)) as (O' & Q' & L' & A').
    + rewrite W. exact C.
    + unfold tracked in *. rewrite W. exact T.
    + cbv zeta in O', Q', L', A'. rewrite O', Q', L', A', Q, L, A, W.
      cbn. rewrite <- !app_assoc. auto.
Qed.

Lemma full_slider_frame (p p' : Full.Page num) :
  p' = p \/ p' = Full.effect (Full.set_linearMul (Full.linearMul p') p)
  \/ p' = Full.effect (Full.set_angularMul (Full.angularMul p') p) ->
  cmdVelRef (Full.world p) = Some cmdVel ->
  cmdVelRef (Full.world p') = Some cmdVel
  /\ gamepadIdxRef (Full.world p') = gamepadIdxRef (Full.world p)
  /\ clock (Full.world p') = clock (Full.world p)
  /\ outbox (Full.world p') = outbox (Full.world p)
  /\ rafQueue (Full.world p') = rafQueue (Full.world p)
  /\ Full.loops p' = Full.loops p.
Proof.
  intros [-> | [-> | ->]] C; cbn; auto 10.
Qed.

Lemma full_setLinearMul_cases (v : num) (p : Full.Page num) :
  let p' := Full.setLinearMul v p in
  (p' = p \/ p' = Full.effect (Full.set_linearMul (Full.linearMul p') p)
   \/ p' = Full.effect (Full.set_angularMul (Full.angularMul p') p))
  /\ (Full.Object_is v (Full.linearMul p) = false -> Full.linearMul p' = v)
  /\ Full.angularMul p' = Full.angularMul p.
Proof.
  unfold Full.setLinearMul. destruct (Full.Object_is v (Full.linearMul p));
    cbn; split; auto. intuition discriminate.
Qed.

Lemma full_setAngularMul_cases (v : num) (p : Full.Page num) :
  let p' := Full.setAngularMul v p in
  (p' = p \/ p' = Full.effect (Full.set_linearMul (Full.linearMul p') p)
   \/ p' = Full.effect (Full.set_angularMul (Full.angularMul p') p))
  /\ (Full.Object_is v (Full.angularMul p) = false -> Full.angularMul p' = v)
  /\ Full.linearMul p' = Full.linearMul p.
Proof.
  unfold Full.setAngularMul. destruct (Full.Object_is v (Full.angularMul p));
    cbn; split; auto. intuition discriminate.
Qed.

(** Moving the sliders does not reach a polling loop that is already
    running.  After both sliders are moved, the next frame still publishes,
    for each scheduled closure, the command scaled by the multipliers that
    closure captured when its gamepad connected, and the closures stay
    scheduled as they were; the new values do not occur in what the gamepad
    path publishes.  The joystick, whose props are those of the latest
    render, uses the new values at once. *)
Theorem polling_closures_keep_their_multipliers
    (v v' : num) (gamepads : list (option (Gamepad num))) (gp : Gamepad num)
    (p : Full.Page num) :
  cmdVelRef (Full.world p) = Some cmdVel ->
  tracked gamepads (Full.world p) = Some gp ->
  let moved := Full.run [Full.SliderLinear v; Full.SliderAngular v'] p in
  let polled := Full.step moved (Full.AnimationFrame gamepads) in
  outbox (Full.world polled)
  = rev (map (fun c => buildTwistStamped (fst (padCommand gp c)) (snd (padCommand gp c))
                         (clock (Full.world p))) (Full.loops p))
    ++ outbox (Full.world p)
  /\ Full.loops polled = Full.loops p
  /\ (Full.Object_is v (Full.linearMul p) = false -> Full.linearMul polled = v)
  /\ (Full.Object_is v' (Full.angularMul p) = false -> Full.angularMul polled = v')
  /\ (forall event,
        Full.world (Full.joystickMove event polled)
        = joystickMove (Full.linearMul polled) (Full.angularMul polled) event
            (Full.world polled)).
Proof.
  intros C T moved polled. subst polled moved.
  cbn [Full.run fold_left Full.step].
  destruct (full_setLinearMul_cases v p) as (K1 & V1 & A1). cbv zeta in K1, V1, A1.
  set (p1 := Full.setLinearMul v p) in *.
  destruct (full_slider_frame p p1 K1 C) as (C1 & I1 & Cl1 & O1 & R1 & Q1).
  destruct (full_setAngularMul_cases v' p1) as (K2 & V2 & L2). cbv zeta in K2, V2, L2.
  set (p2 := Full.setAngularMul v' p1) in *.
  destruct (full_slider_frame p1 p2 K2 C1) as (C2 & I2 & Cl2 & O2 & R2 & Q2).
  unfold Full.animationFrame.
  set (p0 := Full.set_loops [] (Full.set_world (set_rafQueue 0 (Full.world p2)) p2)).
  destruct (full_frame_outbox gamepads gp (Full.loops p2) p0) as (O & Q & L & A).
  - exact C2.
  - unfold tracked in *. cbn. rewrite I2, I1. exact T.
  - cbv zeta in O, Q, L, A.
    split; [ rewrite O; cbn; now rewrite Q2, Q1, Cl2, Cl1, O2, O1 | ].
    split; [ rewrite Q; cbn; now rewrite Q2, Q1 | ].
    split; [ intros N; rewrite L; cbn; rewrite L2; now apply V1 | ].
    split; [ intros N; rewrite A; cbn; apply V2; now rewrite A1 | ].
    intros event. apply full_joystickMove_world.
Qed.
End StaleClosures.

Lemma polling_closures_keep_their_multipliers_witness :
  cmdVelRef (Full.world polling_page) = Some cmdVel
  /\ tracked pushed_pads (Full.world polling_page)
     = Some {| axes0 := 0%float; axes1 := (-0.5)%float |}
  /\ outbox (Full.world
               (Full.run [Full.SliderLinear 2%float; Full.SliderAngular 3%float;
                          Full.AnimationFrame pushed_pads] polling_page))
     = [buildTwistStamped 0.25%float 0%float 1000]
  /\ Full.linearMul
       (Full.run [Full.SliderLinear 2%float; Full.SliderAngular 3%float;
                  Full.AnimationFrame pushed_pads] polling_page) = 2%float.
Proof.
  assert (cmdVelRef (Full.world polling_page) = Some cmdVel) as C by reflexivity.
  assert (tracked pushed_pads (Full.world polling_page)
          = Some {| axes0 := 0%float; axes1 := (-0.5)%float |}) as T by reflexivity.
  split; [ exact C | ]. split; [ exact T | ].
  destruct (polling_closures_keep_their_multipliers 2%float 3%float pushed_pads
              {| axes0 := 0%float; axes1 := (-0.5)%float |} polling_page C T)
    as (O & _ & L & _).
  split; [ exact O | ]. apply L. reflexivity.
Defined.

(** A gamepad that reconnects after a slider was moved adds a second loop
    with the new multipliers beside the first one: each frame then publishes
    the old scaling and the new one, in turn. *)
Example reconnect_after_slider_publishes_both_scalings :
  map (fun m => x (linear (twist m)))
    (outbox (Full.world
               (Full.run [Full.SliderLinear 2%float;
                          Full.GamepadConnected 0 "pad";
                          Full.AnimationFrame pushed_pads;
                          Full.AnimationFrame pushed_pads] polling_page)))
  = [1%float; 0.25%float; 1%float; 0.25%float].
Proof. reflexivity. Qed.

(* ------------------------------------------------------------------ *)
(** ** The polling loops of the full page *)

Section FullLoops.
Context {num : Type} `{JSNumber num} `{Full.JSNumberMore num}.

(** The ticks of a frame leave the clock and the refs other than the
    outbox alone. *)
Lemma full_fold_poll_frame (gamepads : list (option (Gamepad num)))
    (cs : list (num * num)) (p : Full.Page num) :
  let q := fold_left (fun p c => Full.pollGamepad c gamepads p) cs p in
  clock (Full.world q) = clock (Full.world p)
  /\ cmdVelRef (Full.world q) = cmdVelRef (Full.world p)
  /\ gamepadIdxRef (Full.world q) = gamepadIdxRef (Full.world p)
  /\ lastMoveTime (Full.world q) = lastMoveTime (Full.world p)
  /\ listening (Full.world q) = listening (Full.world p).
Proof.
  revert p. induction cs as [| c cs IH]; intros p; cbv zeta; [ cbn; auto | ].
  cbn [fold_left].
  destruct (IH (Full.pollGamepad c gamepads p)) as (-> & -> & -> & -> & ->).
  destruct (full_pollGamepad_world c gamepads p) as (-> & _).
  apply pollGamepad_frame.
Qed.

Lemma full_step_cmdVelRef (p : Full.Page num) (e : Full.Event num) :
  cmdVelRef (Full.world p) = Some cmdVel ->
  cmdVelRef (Full.world (Full.step p e)) = Some cmdVel.
Proof.
  intros C.
  destruct e as [time | | | detail | | event | | index id | | gamepads | v | v];
    cbn [Full.step]; try (now destruct (listening (Full.world p))).
  - destruct (full_joystickMove_world event p) as (-> & _).
    apply (step_cmdVelRef (Full.linearMul p) (Full.angularMul p) (Full.world p)
             (JoystickMove event) C).
  - unfold Full.joystickStop.
    destruct (full_invokeAll_world Joystick.handleStop p) as (-> & _).
    apply (step_cmdVelRef (Full.linearMul p) (Full.angularMul p) (Full.world p)
             JoystickStop C).
  - unfold Full.animationFrame.
    now destruct (full_fold_poll_frame gamepads (Full.loops p)
                    (Full.set_loops []
                       (Full.set_world (set_rafQueue 0 (Full.world p)) p)))
      as (_ & -> & _).
  - unfold Full.setLinearMul. now destruct (Full.Object_is v (Full.linearMul p)).
  - unfold Full.setAngularMul. now destruct (Full.Object_is v (Full.angularMul p)).
Qed.

Lemma full_run_cmdVelRef (es : list (Full.Event num)) (p : Full.Page num) :
  cmdVelRef (Full.world p) = Some cmdVel ->
  cmdVelRef (Full.world (Full.run es p)) = Some cmdVel.
Proof.
  revert p. induction es as [| e es IH]; intros p C; [ exact C | ].
  cbn [Full.run fold_left]. apply IH. now apply full_step_cmdVelRef.
Qed.

Lemma full_mounted_cmdVelRef (es : list (Full.Event num)) :
  cmdVelRef (Full.world (Full.run (Full.EffectRun :: es) Full.initial)) = Some cmdVel.
Proof. cbn [Full.run fold_left]. now apply full_run_cmdVelRef. Qed.



(** One tick of the closure that captured [c], with the topic set and the
    device present. *)
Lemma full_pollGamepad_present (c : num * num)
    (gamepads : list (option (Gamepad num))) (gp : Gamepad num) (t : Topic)
    (p : Full.Page num) :
  cmdVelRef (Full.world p) = Some t -> tracked gamepads (Full.world p) = Some gp ->
  let cmd := padCommand gp c in
  Full.world (Full.pollGamepad c gamepads p)
  = requestAnimationFrame
      (setTwistStatus
         (if truthy (fst cmd) || truthy (snd cmd)
          then {| text := Active; color := "#00ffcc" |}
          else {| text := Idle; color := "#ccc" |})
         (publish (buildTwistStamped (fst cmd) (snd cmd) (clock (Full.world p)))
            (Full.world p)))
  /\ Full.loops (Full.pollGamepad c gamepads p) = Full.loops p ++ [c].
Proof.
  intros C T. cbv zeta.
  destruct (full_pollGamepad_world c gamepads p) as (W & _ & _ & Q & _).
  destruct (tracked_index gamepads (Full.world p) gp T) as [i I].
  rewrite I in Q. split; [ | exact Q ].
  rewrite W. apply (pollGamepad_present (fst c) (snd c) gamepads (Full.world p) t gp C T).
Qed.




(** After a poll tick, and after a whole frame, the activity indicator
    tells whether the message handed to the topic last is a command other
    than zero: a tick of any closure that finds the tracked device
    publishes one message and sets the status to Active when one of its two
    velocities is neither zero nor NaN, to Idle otherwise; so after a frame
    with several loops the status is that of the loop that ran last,
    whatever the others published, and a frame with no loop leaves status
    and outbox alone. *)
Theorem pollGamepad_status_follows_last_command
    (es : list (Full.Event num)) (gamepads : list (option (Gamepad num)))
    (gp : Gamepad num) :
  let p := Full.run (Full.EffectRun :: es) Full.initial in
  let f := Full.step p (Full.AnimationFrame gamepads) in
  let shown (m : TwistStamped num) : Status :=
    if truthy (x (linear (twist m))) || truthy (z (angular (twist m)))
    then {| text := Active; color := "#00ffcc" |}
    else {| text := Idle; color := "#ccc" |} in
  tracked gamepads (Full.world p) = Some gp ->
  (forall c, exists m,
      outbox (Full.world (Full.pollGamepad c gamepads p)) = m :: outbox (Full.world p)
      /\ x (linear (twist m)) = fst (padCommand gp c)
      /\ z (angular (twist m)) = snd (padCommand gp c)
      /\ twistStatus (Full.world (Full.pollGamepad c gamepads p)) = shown m)
  /\ (forall cs c, Full.loops p = cs ++ [c] ->
        hd_error (outbox (Full.world f))
        = Some (buildTwistStamped (fst (padCommand gp c)) (snd (padCommand gp c))
                  (clock (Full.world p)))
        /\ twistStatus (Full.world f)
           = shown (buildTwistStamped (fst (padCommand gp c)) (snd (padCommand gp c))
                      (clock (Full.world p))))
  /\ (Full.loops p = [] ->
      twistStatus (Full.world f) = twistStatus (Full.world p)
      /\ outbox (Full.world f) = outbox (Full.world p)).
Proof.
  intros p f shown T. subst f.
  assert (cmdVelRef (Full.world p) = Some cmdVel) as C by apply full_mounted_cmdVelRef.
  split.
  { intros c. destruct (full_pollGamepad_present c gamepads gp cmdVel p C T) as [W _].
    cbv zeta in W. rewrite W. eexists. split; [ reflexivity | ]. subst shown. cbn. auto. }
  split.
  - intros cs c Q. cbn [Full.step]. unfold Full.animationFrame. rewrite Q, fold_left_app.
    cbn [fold_left].
    set (p0 := Full.set_loops [] (Full.set_world (set_rafQueue 0 (Full.world p)) p)).
    destruct (full_fold_poll_frame gamepads cs p0) as (Cl & Cm & Ix & _).
    cbv zeta in Cl, Cm, Ix.
    set (q := fold_left (fun p c => Full.pollGamepad c gamepads p) cs p0) in *.
    destruct (full_pollGamepad_present c gamepads gp cmdVel q) as [W _].
    + rewrite Cm. exact C.
    + unfold tracked in *. rewrite Ix. exact T.
    + cbv zeta in W. rewrite W, Cl. subst shown. cbn. auto.
  - intros Q. cbn [Full.step]. unfold Full.animationFrame. rewrite Q. cbn. auto.
Qed.

End FullLoops.



Lemma pollGamepad_status_follows_last_command_witness :
  tracked pushed_pads
    (Full.world (Full.run (Full.EffectRun :: two_scalings) Full.initial))
  = Some {| axes0 := 0%float; axes1 := (-0.5)%float |}
  /\ hd_error
       (outbox (Full.world
                  (Full.step (Full.run (Full.EffectRun :: two_scalings) Full.initial)
                     (Full.AnimationFrame pushed_pads))))
     = Some (buildTwistStamped 0%float 0%float 1000)
  /\ map (fun m => x (linear (twist m)))
       (outbox (Full.world
                  (Full.step (Full.run (Full.EffectRun :: two_scalings) Full.initial)
                     (Full.AnimationFrame pushed_pads))))
     = [0%float; 0.25%float]
  /\ text (twistStatus
             (Full.world
                (Full.step (Full.run (Full.EffectRun :: two_scalings) Full.initial)
                   (Full.AnimationFrame pushed_pads))))
     = Idle.
Proof.
  assert (tracked pushed_pads
            (Full.world (Full.run (Full.EffectRun :: two_scalings) Full.initial))
          = Some {| axes0 := 0%float; axes1 := (-0.5)%float |}) as T by reflexivity.
  split; [ exact T | ].
  destruct (pollGamepad_status_follows_last_command two_scalings pushed_pads
              {| axes0 := 0%float; axes1 := (-0.5)%float |} T)
    as (_ & K & _).
  destruct (K [(0.5%float, 1%float)] (0%float, 1%float) eq_refl) as [Hd St].
  split; [ exact Hd | ]. split; [ reflexivity | ].
  exact (f_equal text St).
Defined.

(* ------------------------------------------------------------------ *)
(** ** What the outbox can contain *)

Section SliderBounds.
Open Scope Qc_scope.
Variables L A : Qc.

Lemma applyEasing_range (raw : Qc) :
  Spec.in_domain raw -> Qcabs (Joystick.applyEasing raw) <= 1.
Proof.
  intros [Lo Hi]. rewrite applyEasing_ease. apply Qcabs_Qcle_condition. split.
  - replace (- (1)) with (Spec.ease (- Q2Qc 100))
      by (apply Qc_is_canon; vm_compute; reflexivity).
    now apply ease_mono.
  - replace 1 with (Spec.ease (Q2Qc 100)) by (apply Qc_is_canon; reflexivity).
    now apply ease_mono.
Qed.

Lemma scaled_within (a m bound : Qc) :
  Qcabs a <= 1 -> 0 <= m <= bound -> Qcabs (a * m) <= bound.
Proof.
  intros Ha [M B]. rewrite Qcabs_Qcmult, (Qcabs_pos m M).
  apply Qcle_trans with m; [ | exact B ].
  rewrite <- (Qcmult_1_l m) at 2. now apply Qcmult_le_compat_r.
Qed.

Lemma zero_within (m bound : Qc) : 0 <= m <= bound -> Qcabs 0 <= bound.
Proof.
  intros [M B]. rewrite (Qcabs_pos 0) by apply Qcle_refl.
  now apply Qcle_trans with m.
Qed.

Lemma publishTwist_Forall (P : TwistStamped Qc -> Prop) (lx az : Qc) (w : World Qc) :
  P (buildTwistStamped lx az (clock w)) -> Forall P (outbox w) ->
  Forall P (outbox (publishTwist lx az w)).
Proof.
  intros B F. unfold publishTwist. destruct (cmdVelRef w); [ | exact F ].
  cbn. now constructor.
Qed.

Lemma tracked_In (gamepads : list (option (Gamepad Qc))) (w : World Qc)
    (gp : Gamepad Qc) :
  tracked gamepads w = Some gp -> In (Some gp) gamepads.
Proof.
  unfold tracked. destruct (gamepadIdxRef w) as [i |]; [ | discriminate ].
  destruct (nth_error gamepads i) as [g |] eqn:N; [ | discriminate ].
  intros ->. eapply nth_error_In. exact N.
Qed.

Lemma joystickMove_bounded (l a : Qc) (event : Joystick.MoveEvent Qc) (w : World Qc) :
  multipliers_within L A (l, a) -> Range.sample_in_domain event ->
  Forall (Range.within L A) (outbox w) ->
  Forall (Range.within L A) (outbox (joystickMove l a event w)).
Proof.
  intros [Ml Ma] [Dx Dy] F. cbn [fst snd] in Ml, Ma.
  unfold joystickMove, Joystick.handleMove.
  destruct (Joystick.x event) as [ex |], (Joystick.y event) as [ey |];
    try exact F.
  destruct (clock w - lastMoveTime w <? 30)%Z; [ exact F | ].
  cbv zeta. destruct (_ || _); [ | exact F ].
  cbn [invokeAll fold_left invoke handleJoystickStatusUpdate handleJoystickMove
       outbox setTwistStatus].
  apply publishTwist_Forall; [ | exact F ].
  split; cbn.
  - apply scaled_within; [ now apply applyEasing_range | assumption ].
  - apply scaled_within; [ | assumption ].
    rewrite Qcabs_opp. now apply applyEasing_range.
Qed.

Lemma joystickStop_bounded (l a : Qc) (w : World Qc) :
  multipliers_within L A (l, a) ->
  Forall (Range.within L A) (outbox w) ->
  Forall (Range.within L A) (outbox (joystickStop w)).
Proof.
  intros [Ml Ma] F. cbn [fst snd] in Ml, Ma.
  unfold joystickStop, Joystick.handleStop.
  cbn [invokeAll fold_left invoke handleJoystickStatusUpdate handleJoystickEnd
       outbox setTwistStatus].
  apply publishTwist_Forall; [ | exact F ].
  split; cbn; eapply zero_within; eassumption.
Qed.

Lemma pollGamepad_bounded (l a : Qc) (gamepads : list (option (Gamepad Qc)))
    (w : World Qc) :
  multipliers_within L A (l, a) ->
  Range.event_in_range (AnimationFrame gamepads) ->
  Forall (Range.within L A) (outbox w) ->
  Forall (Range.within L A) (outbox (pollGamepad l a gamepads w)).
Proof.
  intros [Ml Ma] R F. cbn [fst snd] in Ml, Ma. unfold pollGamepad.
  destruct (tracked gamepads w) as [gp |] eqn:T; cbv zeta.
  - assert (Range.pad_in_range gp) as [Rx Ry].
    { cbn in R. rewrite Forall_forall in R. exact (R _ (tracked_In _ _ _ T)). }
    set (lin := if gt (Math_abs (axes1 gp)) lit_0_1 then _ else _).
    set (ang := if gt (Math_abs (axes0 gp)) lit_0_1 then _ else _).
    assert (Forall (Range.within L A) (outbox (publishTwist lin ang w))) as F'.
    { apply publishTwist_Forall; [ | exact F ]. split; cbn; subst lin ang.
      - destruct (gt _ _); [ | eapply zero_within; eassumption ].
        apply scaled_within; [ | assumption ]. cbn. now rewrite Qcabs_opp.
      - destruct (gt _ _); [ | eapply zero_within; eassumption ].
        apply scaled_within; [ | assumption ]. cbn. now rewrite Qcabs_opp. }
    destruct (truthy lin || truthy ang);
      match goal with
      | |- context [gamepadIdxRef ?v] => destruct (gamepadIdxRef v)
      end; exact F'.
  - destruct (gamepadIdxRef w); exact F.
Qed.

(** The ticks of a frame, each closure within the bounds. *)
Lemma full_frame_bounded (gamepads : list (option (Gamepad Qc)))
    (cs : list (Qc * Qc)) (p : Full.Page Qc) :
  Range.event_in_range (AnimationFrame gamepads) ->
  Forall (multipliers_within L A) cs ->
  Forall (multipliers_within L A) (Full.loops p) ->
  Forall (Range.within L A) (outbox (Full.world p)) ->
  let q := fold_left (fun p c => Full.pollGamepad c gamepads p) cs p in
  Full.linearMul q = Full.linearMul p /\ Full.angularMul q = Full.angularMul p
  /\ Forall (multipliers_within L A) (Full.loops q)
  /\ Forall (Range.within L A) (outbox (Full.world q)).
Proof.
  intros R. revert p. induction cs as [| c cs IH]; intros p Cs Ls F; cbv zeta.
  - cbn. auto.
  - inversion Cs as [| ? ? Cc Ccs]; subst. cbn [fold_left].
    destruct (full_pollGamepad_world c gamepads p) as (W & Li & An & Q & _).
    destruct (IH (Full.pollGamepad c gamepads p) Ccs) as (Li' & An' & Ls' & F').
    + rewrite Q. apply Forall_app. split; [ exact Ls | ].
      destruct (gamepadIdxRef (Full.world p)); [ now constructor | constructor ].
    + rewrite W. apply pollGamepad_bounded; [ | exact R | exact F ].
      now destruct c.
    + cbv zeta in Li', An'. rewrite Li', An', Li, An. auto.
Qed.

Lemma full_step_bounded (p : Full.Page Qc) (e : Full.Event Qc) :
  full_event_in_range L A e ->
  multipliers_within L A (Full.linearMul p, Full.angularMul p)
  /\ Forall (multipliers_within L A) (Full.loops p)
  /\ Forall (Range.within L A) (outbox (Full.world p)) ->
  multipliers_within L A (Full.linearMul (Full.step p e), Full.angularMul (Full.step p e))
  /\ Forall (multipliers_within L A) (Full.loops (Full.step p e))
  /\ Forall (Range.within L A) (outbox (Full.world (Full.step p e))).
Proof.
  intros R (M & Ls & F).
  destruct e as [time | | | detail | | event | | index id | | gamepads | v | v];
    cbn [Full.step]; cbn in R;
    try (destruct (listening (Full.world p)); cbn; auto; fail);
    try (cbn; auto; fail).
  - destruct (full_joystickMove_world event p) as (-> & -> & -> & -> & _).
    split; [ exact M | ]. split; [ exact Ls | ].
    now apply joystickMove_bounded.
  - unfold Full.joystickStop.
    destruct (full_invokeAll_world Joystick.handleStop p) as (-> & -> & -> & -> & _).
    split; [ exact M | ]. split; [ exact Ls | ].
    now apply (joystickStop_bounded (Full.linearMul p) (Full.angularMul p)).
  - destruct (listening (Full.world p)); [ | auto ].
    cbn. split; [ exact M | ]. split; [ | exact F ].
    apply Forall_app. split; [ exact Ls | now constructor ].
  - unfold Full.animationFrame.
    destruct (full_frame_bounded gamepads (Full.loops p)
                (Full.set_loops [] (Full.set_world (set_rafQueue 0 (Full.world p)) p))
                R Ls (Forall_nil _) F) as (-> & -> & Ls' & F').
    auto.
  - unfold Full.setLinearMul. destruct (Full.Object_is v (Full.linearMul p)); [ auto | ].
    cbn. destruct M as [_ Ma].
    split; [ split; [ exact R | exact Ma ] | split; assumption ].
  - unfold Full.setAngularMul. destruct (Full.Object_is v (Full.angularMul p)); [ auto | ].
    cbn. destruct M as [Ml _].
    split; [ split; [ exact Ml | exact R ] | split; assumption ].
Qed.

(** No published velocity leaves the range of its slider.  Along every
    trace of the full page from the first render (slider moves, re-runs of
    the effect, reconnects and loops that hold older multipliers
    included), if the sliders deliver values between 0 and the bounds [L]
    and [A], which also bound the initial 0.5 and 1, and the joystick
    samples lie in [-100, 100] and the gamepad axes in [-1, 1], then every
    message in the outbox has [|linear.x| <= L] and [|angular.z| <= A]
    (exact arithmetic).  For the page's sliders the bounds are 2 and 3. *)
Theorem published_commands_within_slider_range (es : list (Full.Event Qc)) :
  Q2Qc (1 # 2) <= L -> 1 <= A ->
  Forall (full_event_in_range L A) es ->
  Forall (Range.within L A) (outbox (Full.world (Full.run es Full.initial))).
Proof.
  intros BL BA R.
  assert (multipliers_within L A (Full.linearMul (@Full.initial Qc _ _),
                                  Full.angularMul (@Full.initial Qc _ _))
          /\ Forall (multipliers_within L A) (Full.loops (@Full.initial Qc _ _))
          /\ Forall (Range.within L A) (outbox (Full.world (@Full.initial Qc _ _))))
    as J.
  { split; [ | split; constructor ].
    split; (split; [ unfold Qcle; cbn; discriminate | assumption ]). }
  revert J R. unfold Full.run. generalize (@Full.initial Qc _ _) as p.
  induction es as [| e es IH]; intros p J R; [ apply J | ].
  inversion R as [| ? ? Re Res]; subst.
  cbn [fold_left]. apply IH; [ now apply full_step_bounded | exact Res ].
Qed.
End SliderBounds.

Lemma published_commands_within_slider_range_witness :
  Forall (Range.within (Q2Qc 2) (Q2Qc 3))
    (outbox (Full.world (Full.run slider_session Full.initial)))
  /\ map (fun m => this (x (linear (twist m))))
       (outbox (Full.world (Full.run slider_session Full.initial)))
     = [1 # 1; 1 # 4; 1 # 4; -2 # 1; 1 # 4]%Q.
Proof.
  split.
  - apply (published_commands_within_slider_range (Q2Qc 2) (Q2Qc 3)).
    + unfold Qcle; cbn; discriminate.
    + unfold Qcle; cbn; discriminate.
    + unfold slider_session.
      repeat constructor; unfold Qcle; cbn; discriminate.
  - vm_compute. reflexivity.
Defined.

(* ------------------------------------------------------------------ *)
(** ** The terminal and the Robot Status panel *)

Section Terminal.
Context {num : Type} `{JSNumber num} `{Full.JSNumberMore num}.

Lemma full_invoke_terminal (c : Joystick.Call num) (p : Full.Page num) :
  exists new, Full.terminalOutput (Full.invoke c p) = Full.terminalOutput p ++ new.
Proof.
  destruct c as [l a | | s c]; cbn [Full.invoke].
  - unfold Full.handleJoystickMove. cbv zeta. destruct (_ || _).
    + eexists. reflexivity.
    + exists []. cbn. now rewrite app_nil_r.
  - eexists. reflexivity.
  - exists []. cbn. now rewrite app_nil_r.
Qed.

Lemma full_invokeAll_terminal (cs : list (Joystick.Call num)) (p : Full.Page num) :
  exists new, Full.terminalOutput (Full.invokeAll cs p) = Full.terminalOutput p ++ new.
Proof.
  revert p. induction cs as [| c cs IH]; intros p.
  - exists []. cbn. now rewrite app_nil_r.
  - cbn [Full.invokeAll fold_left]. fold (Full.invokeAll cs (Full.invoke c p)).
    destruct (IH (Full.invoke c p)) as [later L].
    destruct (full_invoke_terminal c p) as [first F].
    exists (first ++ later). now rewrite L, F, app_assoc.
Qed.

Lemma full_pollGamepad_terminal (c : num * num)
    (gamepads : list (option (Gamepad num))) (p : Full.Page num) :
  exists new,
    Full.terminalOutput (Full.pollGamepad c gamepads p) = Full.terminalOutput p ++ new.
Proof.
  unfold Full.pollGamepad.
  destruct (tracked gamepads (Full.world p)) as [gp |]; cbv zeta.
  - destruct (_ || _);
      match goal with
      | |- context [gamepadIdxRef ?v] => destruct (gamepadIdxRef v)
      end; cbn; try (eexists; reflexivity); exists []; now rewrite app_nil_r.
  - destruct (gamepadIdxRef (Full.world p)); exists []; cbn; now rewrite app_nil_r.
Qed.

(** The terminal keeps its history through every handler, which can only
    add lines at the end, except when the effect runs: the effect replaces
    the whole text by the version line and 'Initializing...'.  Since a
    slider that changes a multiplier runs the effect again, every such
    change clears the terminal. *)
Theorem terminal_is_cleared_by_effect_runs_only (p : Full.Page num) (e : Full.Event num) :
  let fresh := [Full.Stamped (clock (Full.world p)) Full.UiVersion; Full.Initializing] in
  match e with
  | Full.EffectRun => Full.terminalOutput (Full.step p e) = fresh
  | Full.SliderLinear v =>
      Full.terminalOutput (Full.step p e)
      = if Full.Object_is v (Full.linearMul p) then Full.terminalOutput p else fresh
  | Full.SliderAngular v =>
      Full.terminalOutput (Full.step p e)
      = if Full.Object_is v (Full.angularMul p) then Full.terminalOutput p else fresh
  | _ => exists new, Full.terminalOutput (Full.step p e) = Full.terminalOutput p ++ new
  end.
Proof.
  cbv zeta.
  destruct e as [time | | | detail | | event | | index id | | gamepads | v | v];
    cbn [Full.step];
    try (destruct (listening (Full.world p));
         [ eexists; reflexivity | exists []; now rewrite app_nil_r ]).
  - exists []. cbn. now rewrite app_nil_r.
  - reflexivity.
  - unfold Full.joystickMove. destruct (Joystick.handleMove _ _ _ _ _) as [time calls].
    apply (full_invokeAll_terminal calls
             (Full.set_world (set_lastMoveTime time (Full.world p)) p)).
  - apply full_invokeAll_terminal.
  - unfold Full.animationFrame.
    change (Full.terminalOutput p)
      with (Full.terminalOutput
              (Full.set_loops [] (Full.set_world (set_rafQueue 0 (Full.world p)) p))).
    generalize (Full.set_loops [] (Full.set_world (set_rafQueue 0 (Full.world p)) p)) as q.
    induction (Full.loops p) as [| c cs IH]; intros q.
    + exists []. cbn. now rewrite app_nil_r.
    + cbn [fold_left]. destruct (IH (Full.pollGamepad c gamepads q)) as [later L].
      destruct (full_pollGamepad_terminal c gamepads q) as [first F].
      exists (first ++ later). now rewrite L, F, app_assoc.
  - unfold Full.setLinearMul. now destruct (Full.Object_is v (Full.linearMul p)).
  - unfold Full.setAngularMul. now destruct (Full.Object_is v (Full.angularMul p)).
Qed.

Lemma pollGamepad_webStatus (linearMul angularMul : num)
    (gamepads : list (option (Gamepad num))) (w : World num) :
  webStatus (pollGamepad linearMul angularMul gamepads w) = webStatus w.
Proof.
  unfold pollGamepad. destruct (tracked gamepads w) as [gp |]; cbv zeta.
  - set (lin := if gt (Math_abs (axes1 gp)) lit_0_1 then _ else _).
    set (ang := if gt (Math_abs (axes0 gp)) lit_0_1 then _ else _).
    destruct (publishTwist_frame lin ang w) as (_ & _ & _ & _ & W & _).
    destruct (truthy lin || truthy ang);
      match goal with
      | |- context [gamepadIdxRef ?v] => destruct (gamepadIdxRef v)
      end; exact W.
  - now destruct (gamepadIdxRef w).
Qed.

Lemma full_step_link (p : Full.Page num) (e : Full.Event num) :
  match e with
  | Full.RosConnection | Full.RosError _ | Full.RosClose => True
  | _ => webStatus (Full.world (Full.step p e)) = webStatus (Full.world p)
         /\ Full.sensorData (Full.step p e) = Full.sensorData p
  end.
Proof.
  destruct e as [time | | | detail | | event | | index id | | gamepads | v | v];
    cbn [Full.step]; try exact I;
    try (destruct (listening (Full.world p)); split; reflexivity);
    try (split; reflexivity).
  - destruct (full_joystickMove_world event p) as (-> & _ & _ & _ & ->).
    split; [ | reflexivity ].
    apply (step_webStatus (Full.linearMul p) (Full.angularMul p) (Full.world p)
             (JoystickMove event) eq_refl).
  - unfold Full.joystickStop.
    destruct (full_invokeAll_world Joystick.handleStop p) as (-> & _ & _ & _ & ->).
    split; [ | reflexivity ].
    apply (step_webStatus (Full.linearMul p) (Full.angularMul p) (Full.world p)
             JoystickStop eq_refl).
  - unfold Full.animationFrame.
    change (webStatus (Full.world p))
      with (webStatus (Full.world
              (Full.set_loops [] (Full.set_world (set_rafQueue 0 (Full.world p)) p)))).
    change (Full.sensorData p)
      with (Full.sensorData
              (Full.set_loops [] (Full.set_world (set_rafQueue 0 (Full.world p)) p))).
    generalize (Full.set_loops [] (Full.set_world (set_rafQueue 0 (Full.world p)) p)) as q.
    induction (Full.loops p) as [| c cs IH]; intros q; [ split; reflexivity | ].
    cbn [fold_left]. destruct (IH (Full.pollGamepad c gamepads q)) as [-> ->].
    destruct (full_pollGamepad_world c gamepads q) as (-> & _ & _ & _ & ->).
    split; [ apply pollGamepad_webStatus | reflexivity ].
  - unfold Full.setLinearMul. destruct (Full.Object_is v (Full.linearMul p));
      split; reflexivity.
  - unfold Full.setAngularMul. destruct (Full.Object_is v (Full.angularMul p));
      split; reflexivity.
Qed.

(** The Robot Status panel and the link indicator agree along every trace
    from the first render, though they never show the same text.  Until the
    first link event the panel has no value (it shows the dash) while the
    indicator reads 'Connecting...'.  From then on the panel reads
    'Connected', 'Error' or 'Disconnected' exactly when the indicator reads
    that word followed by its emoji, so the panel's text is a proper prefix
    of the indicator's, and the time of the last update is set. *)
Theorem robot_status_panel_mirrors_link_status (es : list (Full.Event num)) :
  let p := Full.run es Full.initial in
  let indicator := text (webStatus (Full.world p)) in
  match Full.ros (Full.sensorData p) with
  | None => webStatus (Full.world p) = {| text := Connecting; color := "#00ffcc" |}
            /\ Full.lastUpdate (Full.sensorData p) = None
  | Some s =>
      ((s = "Connected"%string /\ indicator = Connected)
       \/ (s = "Error"%string /\ indicator = Error)
       \/ (s = "Disconnected"%string /\ indicator = Disconnected))
      /\ String.prefix s (Render.label indicator) = true
      /\ s <> Render.label indicator
      /\ Sensors.shown (Some s) = s
      /\ Full.lastUpdate (Full.sensorData p) <> None
  end.
Proof.
  cbv zeta.
  assert (match Full.ros (Full.sensorData (Full.run es Full.initial)) with
          | None => webStatus (Full.world (Full.run es Full.initial))
                    = {| text := Connecting; color := "#00ffcc" |}
                    /\ Full.lastUpdate (Full.sensorData (Full.run es Full.initial)) = None
          | Some s =>
              ((s = "Connected"%string
                /\ text (webStatus (Full.world (Full.run es Full.initial))) = Connected)
               \/ (s = "Error"%string
                   /\ text (webStatus (Full.world (Full.run es Full.initial))) = Error)
               \/ (s = "Disconnected"%string
                   /\ text (webStatus (Full.world (Full.run es Full.initial)))
                      = Disconnected))
              /\ Full.lastUpdate (Full.sensorData (Full.run es Full.initial)) <> None
          end) as J.
  { unfold Full.run.
    assert (match Full.ros (Full.sensorData (@Full.initial num _ _)) with
            | None => webStatus (Full.world (@Full.initial num _ _))
                      = {| text := Connecting; color := "#00ffcc" |}
                      /\ Full.lastUpdate (Full.sensorData (@Full.initial num _ _)) = None
            | Some s =>
                ((s = "Connected"%string
                  /\ text (webStatus (Full.world (@Full.initial num _ _))) = Connected)
                 \/ (s = "Error"%string
                     /\ text (webStatus (Full.world (@Full.initial num _ _))) = Error)
                 \/ (s = "Disconnected"%string
                     /\ text (webStatus (Full.world (@Full.initial num _ _)))
                        = Disconnected))
                /\ Full.lastUpdate (Full.sensorData (@Full.initial num _ _)) <> None
            end) as J by (cbn; auto).
    revert J. generalize (@Full.initial num _ _) as p.
    induction es as [| e es IH]; intros p J; [ exact J | ].
    cbn [fold_left]. apply IH. clear IH.
    pose proof (full_step_link p e) as K.
    destruct e as [time | | | detail | | event | | index id | | gamepads | v | v];
      try (match type of K with _ /\ _ => destruct K as [K1 K2] end;
           rewrite K1, K2; exact J);
      cbn [Full.step]; (destruct (listening (Full.world p)); [ | exact J ]);
      cbn; split; try discriminate; auto. }
  destruct (Full.ros (Full.sensorData (Full.run es Full.initial))) as [s |];
    [ | exact J ].
  destruct J as [D U]. split; [ exact D | ].
  destruct D as [[-> ->] | [[-> ->] | [-> ->]]];
    (split; [ reflexivity | ]); (split; [ discriminate | ]); split;
    try reflexivity; exact U.
Qed.
End Terminal.

(* ------------------------------------------------------------------ *)
(** ** The sensor panels *)

Section SensorPanels.
Context {num : Type}.
Variable numberToString : num -> string.
Variable toFixed2 : num -> string.

#[local] Abbreviation soilHandler := (Sensors.soilHandler numberToString).
#[local] Abbreviation bmeHandler := (Sensors.bmeHandler toFixed2).
#[local] Abbreviation bmeField := (Sensors.bmeField toFixed2).

Lemma soilField_handled (key suffix : string) (data : Sensors.JSON num) :
  data <> Sensors.JNull ->
  exists s, Sensors.soilField numberToString key suffix data = Some s
            /\ (Sensors.member key data = Some None -> s = Sensors.dash).
Proof.
  intros N. unfold Sensors.soilField.
  destruct (Sensors.member key data) as [[v |] |] eqn:M.
  - eexists. split; [ reflexivity | discriminate ].
  - eexists. split; reflexivity.
  - destruct data; try discriminate. now elim N.
Qed.

(** A soil message replaces every reading.  A payload that does not parse,
    or that parses to null, leaves the six readings as they were.  Any
    other payload sets all six from the message alone: nothing is carried
    over from earlier messages, a key the message lacks reads as the dash,
    and a payload that is not an object at all (a number, a string, an
    array) blanks every reading. *)
Theorem soil_message_replaces_every_reading
    (parsed : option (Sensors.JSON num)) (prev prev' : Sensors.SoilData) :
  match parsed with
  | None | Some Sensors.JNull => soilHandler parsed prev = prev
  | Some data =>
      soilHandler parsed prev = soilHandler parsed prev'
      /\ (forall key reading,
            In (key, reading) (Sensors.soilFields (soilHandler parsed prev)) ->
            reading <> None
            /\ (Sensors.member key data = Some None -> reading = Some Sensors.dash))
      /\ match data with
         | Sensors.JObject _ => True
         | _ => Forall (fun f => snd f = Some Sensors.dash)
                  (Sensors.soilFields (soilHandler parsed prev))
         end
  end.
Proof.
  destruct parsed as [data |]; [ | reflexivity ].
  assert (data <> Sensors.JNull ->
          soilHandler (Some data) prev = soilHandler (Some data) prev'
          /\ (forall key reading,
                In (key, reading) (Sensors.soilFields (soilHandler (Some data) prev)) ->
                reading <> None
                /\ (Sensors.member key data = Some None -> reading = Some Sensors.dash)))
    as K.
  { intros N. unfold Sensors.soilHandler.
    destruct (soilField_handled "ph" EmptyString data N) as (a & -> & Da).
    destruct (soilField_handled "moist" "%" data N) as (b & -> & Db).
    destruct (soilField_handled "k" EmptyString data N) as (c & -> & Dc).
    destruct (soilField_handled "n" EmptyString data N) as (d & -> & Dd).
    destruct (soilField_handled "p" EmptyString data N) as (e & -> & De).
    destruct (soilField_handled "k2" EmptyString data N) as (f & -> & Df).
    split; [ reflexivity | ].
    intros key reading I. cbn in I.
    repeat match goal with
           | D : _ \/ _ |- _ => destruct D as [D | D]
           | D : False |- _ => destruct D
           | D : (_, _) = (_, _) |- _ => injection D as <- <-
           end;
      (split; [ discriminate | intros M; f_equal; auto ]). }
  destruct data as [| b | x | s | items | members]; try reflexivity;
    (destruct K as [K1 K2]; [ discriminate | ]);
    (split; [ exact K1 | ]); (split; [ exact K2 | ]);
    try exact I; repeat constructor.
Qed.

Lemma bmeField_firstn (i : nat) (unit : string) (items : list (Sensors.JSON num)) :
  (i < 5)%nat -> bmeField i unit (firstn 5 items) = bmeField i unit items.
Proof.
  intros L. unfold Sensors.bmeField. now rewrite nth_error_firstn, (proj2 (Nat.ltb_lt i 5) L).
Qed.

Lemma bmeField_numbers (i : nat) (unit : string) (items : list (Sensors.JSON num)) :
  forallb Sensors.is_number items = true -> bmeField i unit items <> None.
Proof.
  intros A. unfold Sensors.bmeField.
  destruct (nth_error items i) as [v |] eqn:N; [ | discriminate ].
  apply nth_error_In in N. rewrite forallb_forall in A. specialize (A v N).
  destruct v; discriminate.
Qed.

Lemma bmeField_not_number (unit : string) (items : list (Sensors.JSON num)) :
  forallb Sensors.is_number (firstn 5 items) = false ->
  exists i, (i < 5)%nat /\ forall u, bmeField i u items = None.
Proof.
  intros A.
  assert (exists v, In v (firstn 5 items) /\ Sensors.is_number v = false) as (v & I & N).
  { clear unit. induction (firstn 5 items) as [| a l IH]; [ discriminate | ].
    cbn in A. destruct (Sensors.is_number a) eqn:Na.
    - destruct (IH A) as (v & I & N). exists v. split; [ now right | exact N ].
    - exists a. split; [ now left | exact Na ]. }
  apply In_nth_error in I as [i I].
  assert (i < 5)%nat as L.
  { assert (i < List.length (firstn 5 items))%nat as B
        by (apply nth_error_Some; congruence).
    rewrite length_firstn in B. lia. }
  exists i. split; [ exact L | ]. intros u.
  rewrite nth_error_firstn, (proj2 (Nat.ltb_lt i 5) L) in I.
  unfold Sensors.bmeField. rewrite I. destruct v; try reflexivity. discriminate.
Qed.

(** A BME680 message is taken whole or not at all.  Without an array (a
    payload that does not parse, or parses to something else) the readings
    stay.  With an array whose first five elements are numbers as far as
    they exist, all five readings are set from these elements alone:
    nothing is carried over, elements after the fifth are ignored, and a
    reading whose element is missing becomes the dash (so an empty array
    blanks the panel).  With any other element among the first five, a
    null or a string for one, the whole message is dropped, its good
    readings included. *)
Theorem bme_message_is_taken_whole_or_not_at_all
    (input : Sensors.BmeInput num) (prev prev' : Sensors.BMEData) :
  match Sensors.bmeItems input with
  | None => bmeHandler input prev = prev
  | Some items =>
      if forallb Sensors.is_number (firstn 5 items)
      then bmeHandler input prev
           = bmeHandler (Sensors.DataArray (firstn 5 items)) prev'
           /\ Forall (fun f => f <> None) (Sensors.bmeFields (bmeHandler input prev))
           /\ (forall i, (List.length items <= i < 5)%nat ->
                 nth_error (Sensors.bmeFields (bmeHandler input prev)) i
                 = Some (Some Sensors.dash))
      else bmeHandler input prev = prev
  end.
Proof.
  assert (forall items,
             Sensors.bmeItems input = Some items ->
             forall d, bmeHandler input d = bmeHandler (Sensors.DataArray items) d) as Src.
  { intros items E d. destruct input as [l | [[] |]]; try discriminate;
      injection E as ->; reflexivity. }
  destruct (Sensors.bmeItems input) as [items |] eqn:E.
  - rewrite (Src items eq_refl). clear Src E.
    destruct (forallb Sensors.is_number (firstn 5 items)) eqn:A.
    + unfold Sensors.bmeHandler. cbv zeta.
      rewrite !bmeField_firstn by lia.
      pose proof (fun i u => bmeField_numbers i u (firstn 5 items) A) as K.
      pose proof (K 0%nat " °C"%string) as K0. pose proof (K 1%nat " %"%string) as K1.
      pose proof (K 2%nat " hPa"%string) as K2. pose proof (K 3%nat EmptyString) as K3.
      pose proof (K 4%nat " m"%string) as K4.
      rewrite !bmeField_firstn in K0, K1, K2, K3, K4 by lia.
      destruct (bmeField 0 _ items) as [a |] eqn:F0; [ | now elim K0 ].
      destruct (bmeField 1 _ items) as [b |] eqn:F1; [ | now elim K1 ].
      destruct (bmeField 2 _ items) as [c |] eqn:F2; [ | now elim K2 ].
      destruct (bmeField 3 _ items) as [d |] eqn:F3; [ | now elim K3 ].
      destruct (bmeField 4 _ items) as [e |] eqn:F4; [ | now elim K4 ].
      split; [ reflexivity | ].
      split; [ repeat constructor; discriminate | ].
      intros i [Lo Hi]. apply nth_error_None in Lo.
      unfold Sensors.bmeField in F0, F1, F2, F3, F4.
      destruct i as [| [| [| [| [| i]]]]]; try lia; rewrite Lo in *; cbn; congruence.
    + destruct (bmeField_not_number EmptyString items A) as (i & L & N).
      unfold Sensors.bmeHandler. cbv zeta.
      destruct i as [| [| [| [| [| i]]]]]; try lia; rewrite N;
        repeat match goal with
               | |- context [match ?f with Some _ => _ | None => _ end] =>
                   destruct f
               end; reflexivity.
  - destruct input as [l | [[] |]]; try discriminate; reflexivity.
Qed.
End SensorPanels.

(* ------------------------------------------------------------------ *)
(** ** The camera tiles *)

Section StreamUrls.
Local Open Scope string_scope.

Lemma last_char_append (s u : string) :
  Streams.last_char (s ++ u) =
  match Streams.last_char u with
  | Some c => Some c
  | None => Streams.last_char s
  end.
Proof.
  induction s as [| c s IH]; cbn.
  - now destruct (Streams.last_char u).
  - rewrite IH. now destruct (Streams.last_char u).
Qed.

Lemma append_inv_head (a s s' : string) : a ++ s = a ++ s' -> s = s'.
Proof.
  induction a as [| c a IH]; cbn; [ auto | ]. intros E. injection E as E. auto.
Qed.

Lemma list_ascii_of_string_append (s u : string) :
  list_ascii_of_string (s ++ u)
  = (list_ascii_of_string s ++ list_ascii_of_string u)%list.
Proof. induction s as [| c s IH]; cbn; [ reflexivity | now rewrite IH ]. Qed.

Lemma append_inv_tail (b s s' : string) : s ++ b = s' ++ b -> s = s'.
Proof.
  intros E. apply (f_equal list_ascii_of_string) in E.
  rewrite !list_ascii_of_string_append in E. apply app_inv_tail in E.
  rewrite <- (string_of_list_ascii_of_string s), <- (string_of_list_ascii_of_string s').
  now rewrite E.
Qed.

Lemma decimal_inj (n n' : N) : Streams.decimal n = Streams.decimal n' -> n = n'.
Proof.
  unfold Streams.decimal. intros E.
  apply (f_equal NilEmpty.uint_of_string) in E. rewrite !NilEmpty.usu in E.
  injection E as E. apply (f_equal N.of_uint) in E.
  now rewrite !DecimalN.Unsigned.of_to in E.
Qed.

Lemma streamUrl_nonce_inj (n n' : N) (idx : nat) (cam : Streams.Feed) :
  Streams.streamUrl n idx cam = Streams.streamUrl n' idx cam -> n = n'.
Proof.
  unfold Streams.streamUrl. cbv zeta. intros E.
  repeat (apply append_inv_head in E).
  apply append_inv_tail in E. now apply decimal_inj.
Qed.

Lemma streamUrl_last (n : N) (idx : nat) (cam : Streams.Feed) :
  (idx < 4)%nat ->
  Streams.last_char (Streams.streamUrl n idx cam)
  = Streams.last_char (Streams.decimal (N.of_nat (idx + 1))).
Proof.
  intros L. unfold Streams.streamUrl. cbv zeta. rewrite !last_char_append.
  destruct idx as [| [| [| [| idx]]]]; try lia; reflexivity.
Qed.

Lemma streamUrl_tiles_differ (n n' : N) (i j : nat) (cam cam' : Streams.Feed) :
  (i < 4)%nat -> (j < 4)%nat -> i <> j ->
  Streams.streamUrl n i cam <> Streams.streamUrl n' j cam'.
Proof.
  intros Li Lj D E. apply (f_equal Streams.last_char) in E.
  rewrite !streamUrl_last in E by assumption.
  destruct i as [| [| [| [| i]]]]; try lia;
    destruct j as [| [| [| [| j]]]]; try lia; try discriminate; now elim D.
Qed.

Lemma nth_error_mapi {A B : Type} (f : A -> nat -> B) (k i : nat) (l : list A) :
  nth_error (Streams.mapi f k l) i = option_map (fun a => f a (k + i)%nat) (nth_error l i).
Proof.
  revert k i. induction l as [| a l IH]; intros k i.
  - now destruct i.
  - destruct i as [| i]; cbn.
    + now rewrite Nat.add_0_r.
    + rewrite IH. now rewrite Nat.add_succ_r.
Qed.

Lemma length_mapi {A B : Type} (f : A -> nat -> B) (k : nat) (l : list A) :
  List.length (Streams.mapi f k l) = List.length l.
Proof. revert k. induction l as [| a l IH]; intros k; cbn; [ | rewrite IH ]; auto. Qed.

Lemma streamUrls_nth (n : N) (feeds : list Streams.Feed) (i : nat) (u : string) :
  nth_error (Streams.streamUrls n feeds) i = Some u ->
  exists cam, (i < 4)%nat /\ nth_error (firstn 4 feeds) i = Some cam
              /\ u = Streams.streamUrl n i cam.
Proof.
  unfold Streams.streamUrls. rewrite nth_error_mapi. cbn [Nat.add].
  destruct (nth_error (firstn 4 feeds) i) as [cam |] eqn:N; [ | discriminate ].
  intros E. injection E as <-. exists cam. split; [ | auto ].
  assert (i < List.length (firstn 4 feeds))%nat as B by (apply nth_error_Some; congruence).
  rewrite length_firstn in B. lia.
Qed.

(** The addresses of the camera tiles, for any list of feeds: at most four
    tiles are shown, no two tiles of a render have the same address (even
    when, as configured, three of them show the same topic by the same
    transport), and after 'Refresh streams' with a different clock reading
    no address of the new render is one of the old render, so every image
    is fetched again. *)
Theorem stream_addresses_distinct_and_refreshed
    (nonce nonce' : N) (feeds : list Streams.Feed) :
  (List.length (Streams.streamUrls nonce feeds) <= 4)%nat
  /\ NoDup (Streams.streamUrls nonce feeds)
  /\ (nonce <> nonce' ->
      forall u, In u (Streams.streamUrls nonce feeds) ->
                ~ In u (Streams.streamUrls nonce' feeds)).
Proof.
  split; [ | split ].
  - unfold Streams.streamUrls. rewrite length_mapi, length_firstn. lia.
  - apply NoDup_nth_error. intros i j Li E.
    destruct (nth_error (Streams.streamUrls nonce feeds) i) as [u |] eqn:Ei;
      [ | apply nth_error_None in Ei; lia ].
    symmetry in E.
    destruct (streamUrls_nth nonce feeds i u Ei) as (cam & Bi & _ & ->).
    destruct (streamUrls_nth nonce feeds j _ E) as (cam' & Bj & _ & U).
    destruct (Nat.eq_dec i j) as [-> | D]; [ reflexivity | ].
    exfalso. exact (streamUrl_tiles_differ nonce nonce i j cam cam' Bi Bj D U).
  - intros D u I I'.
    apply In_nth_error in I as [i I]. apply In_nth_error in I' as [j I'].
    destruct (streamUrls_nth nonce feeds i u I) as (cam & Bi & Ni & ->).
    destruct (streamUrls_nth nonce' feeds j _ I') as (cam' & Bj & Nj & U).
    destruct (Nat.eq_dec i j) as [<- | Dij].
    + rewrite Ni in Nj. injection Nj as <-.
      apply D. now apply (streamUrl_nonce_inj nonce nonce' i cam).
    + exact (streamUrl_tiles_differ nonce nonce' i j cam cam' Bi Bj Dij U).
Qed.
End StreamUrls.

(** The four addresses of the page as configured. *)
Example stream_addresses_of_the_page :
  Streams.streamUrls 1700000000123 Streams.cameraFeeds
  = ["http://localhost:8080/stream?topic=/rishi/cam&type=mjpeg&t=1700000000123-cam1";
     "http://localhost:8080/stream?topic=/rishi/cam&type=ros_compressed&t=1700000000123-cam2";
     "http://localhost:8080/stream?topic=/rishi/cam&type=ros_compressed&t=1700000000123-cam3";
     "http://localhost:8080/stream?topic=/rishi/cam&type=ros_compressed&t=1700000000123-cam4"
    ]%string.
Proof. reflexivity. Qed.

(* ------------------------------------------------------------------ *)
(** ** How many loops run, and what an active gamepad logs *)

Section LoopCount.
Context {num : Type} `{JSNumber num}.
Variables linearMul angularMul : num.

Lemma step_loops_invariant (w : World num) (e : Event num) :
  e <> GamepadDisconnected ->
  listening w = true /\ (gamepadIdxRef w = None -> rafQueue w = 0%nat) ->
  let w' := step linearMul angularMul w e in
  (listening w' = true /\ (gamepadIdxRef w' = None -> rafQueue w' = 0%nat))
  /\ rafQueue w' = (rafQueue w + Loops.connects [e])%nat.
Proof.
  intros D [L Z]. cbv zeta.
  rewrite step_queue, step_index, (step_listening linearMul angularMul w e L), L.
  destruct e as [t | | | | | ev | | i | | gps]; cbn [Loops.connects filter List.length];
    try (split; [ split; [ reflexivity | exact Z ] | lia ]).
  - split; [ split; [ reflexivity | discriminate ] | lia ].
  - now elim D.
  - destruct (gamepadIdxRef w) eqn:I.
    + split; [ split; [ reflexivity | discriminate ] | lia ].
    + rewrite (Z eq_refl). split; [ split; auto | lia ].
Qed.

(** Loops are only ever added: as long as no disconnect event arrives,
    every connect event the page has received since it was mounted is a
    polling loop that is still scheduled, whatever frames and other events
    came in between. *)
Theorem every_connect_is_a_running_loop_until_disconnect (es : list (Event num)) :
  Loops.never_disconnected es ->
  rafQueue (run linearMul angularMul es mounted) = Loops.connects es.
Proof.
  intros N.
  assert (listening (@mounted num) = true
          /\ (gamepadIdxRef (@mounted num) = None -> rafQueue (@mounted num) = 0%nat))
    as J by (split; reflexivity).
  change (Loops.connects es) with (rafQueue (@mounted num) + Loops.connects es)%nat.
  revert J. generalize (@mounted num) as w.
  induction es as [| e es IH]; intros w J; [ cbn; lia | ].
  inversion N as [| ? ? Ne Nes]; subst.
  cbn [run fold_left]. fold (run linearMul angularMul es (step linearMul angularMul w e)).
  destruct (step_loops_invariant w e Ne J) as [J' Q]. cbv zeta in J', Q.
  rewrite (IH Nes _ J'), Q. unfold Loops.connects. cbn [filter].
  destruct e; cbn [List.length]; lia.
Qed.
End LoopCount.

Lemma every_connect_is_a_running_loop_until_disconnect_witness :
  Loops.never_disconnected three_connects
  /\ rafQueue (run 0.5%float 1%float three_connects mounted) = 3%nat.
Proof.
  assert (Loops.never_disconnected three_connects) as N
      by (unfold three_connects; repeat constructor; discriminate).
  split; [ exact N | ].
  exact (every_connect_is_a_running_loop_until_disconnect 0.5%float 1%float
           three_connects N).
Defined.

Section PadLog.
Context {num : Type} `{JSNumber num} `{Full.JSNumberMore num}.

(** The line a polling closure writes for a gamepad, if any. *)
Lemma full_pollGamepad_log (c : num * num) (gamepads : list (option (Gamepad num)))
    (gp : Gamepad num) (p : Full.Page num) :
  tracked gamepads (Full.world p) = Some gp ->
  Full.terminalOutput (Full.pollGamepad c gamepads p)
  = Full.terminalOutput p
    ++ (if truthy (fst (padCommand gp c)) || truthy (snd (padCommand gp c))
        then [Full.Stamped (clock (Full.world p))
                (Full.PadCommand (fst (padCommand gp c)) (snd (padCommand gp c)))]
        else []).
Proof.
  intros T. unfold Full.pollGamepad. rewrite T. cbv zeta. unfold padCommand. cbn [fst snd].
  set (lin := if gt (Math_abs (axes1 gp)) lit_0_1 then _ else _).
  set (ang := if gt (Math_abs (axes0 gp)) lit_0_1 then _ else _).
  destruct (publishTwist_frame lin ang (Full.world p)) as (C & _).
  cbv zeta in C.
  destruct (truthy lin || truthy ang);
    match goal with
    | |- context [gamepadIdxRef ?v] => destruct (gamepadIdxRef v)
    end; cbn; rewrite ?C, ?app_nil_r; reflexivity.
Qed.

(** The gamepad path logs without a throttle: in a frame that finds the
    tracked device, every scheduled closure whose command is not zero adds
    one line to the terminal, and a closure whose command is zero adds
    none; so a held stick writes a line per loop per frame. *)
Theorem held_stick_logs_every_frame
    (gamepads : list (option (Gamepad num))) (gp : Gamepad num) (p : Full.Page num) :
  tracked gamepads (Full.world p) = Some gp ->
  Full.terminalOutput (Full.step p (Full.AnimationFrame gamepads))
  = Full.terminalOutput p
    ++ flat_map
         (fun c =>
            if truthy (fst (padCommand gp c)) || truthy (snd (padCommand gp c))
            then [Full.Stamped (clock (Full.world p))
                    (Full.PadCommand (fst (padCommand gp c)) (snd (padCommand gp c)))]
            else [])
         (Full.loops p).
Proof.
  intros T. cbn [Full.step]. unfold Full.animationFrame.
  set (p0 := Full.set_loops [] (Full.set_world (set_rafQueue 0 (Full.world p)) p)).
  change (Full.terminalOutput p) with (Full.terminalOutput p0).
  change (clock (Full.world p)) with (clock (Full.world p0)).
  assert (tracked gamepads (Full.world p0) = Some gp) as T0 by exact T.
  clearbody p0. revert p0 T0.
  induction (Full.loops p) as [| c cs IH]; intros q Tq.
  - cbn. now rewrite app_nil_r.
  - cbn [fold_left flat_map].
    destruct (full_pollGamepad_world c gamepads q) as (W & _).
    destruct (pollGamepad_frame (fst c) (snd c) gamepads (Full.world q))
      as (Cl & _ & Ix & _). cbv zeta in Cl, Ix.
    rewrite IH.
    + rewrite (full_pollGamepad_log c gamepads gp q Tq), W, Cl, app_assoc. reflexivity.
    + unfold tracked in *. rewrite W, Ix. exact Tq.
Qed.
End PadLog.

Lemma held_stick_logs_every_frame_witness :
  tracked pushed_pads (Full.world polling_page)
  = Some {| axes0 := 0%float; axes1 := (-0.5)%float |}
  /\ Full.terminalOutput (Full.step polling_page (Full.AnimationFrame pushed_pads))
     = [Full.Stamped 0 Full.UiVersion; Full.Initializing;
        Full.Stamped 1000 (Full.PadConnected "pad");
        Full.Stamped 1000 (Full.PadCommand 0.25%float 0%float)].
Proof.
  assert (tracked pushed_pads (Full.world polling_page)
          = Some {| axes0 := 0%float; axes1 := (-0.5)%float |}) as T by reflexivity.
  split; [ exact T | ].
  exact (held_stick_logs_every_frame pushed_pads _ polling_page T).
Defined.

(* ------------------------------------------------------------------ *)
(** ** The joystick's log throttle *)

Section LogThrottle.
Open Scope Qc_scope.

Lemma handleJoystickMove_cases (l a : Qc) (p : Full.Page Qc) :
  let q := Full.handleJoystickMove l a p in
  Full.world q = publishTwist l a (Full.world p)
  /\ ((Full.terminalOutput q = Full.terminalOutput p
       /\ Full.joystickLogRef q = Full.joystickLogRef p)
      \/ (Full.terminalOutput q
          = (Full.terminalOutput p
             ++ [Full.Stamped (clock (Full.world p)) (Full.JoystickCommand l a)])%list
          /\ Full.joystickLogRef q
             = {| Full.t := clock (Full.world p); Full.lin := l; Full.ang := a |})).
Proof.
  unfold Full.handleJoystickMove. cbv zeta.
  destruct (publishTwist_frame l a (Full.world p)) as (C & _). cbv zeta in C.
  destruct (_ || _); cbn; rewrite ?C; auto.
Qed.

Lemma handleJoystickMove_quiet (l a : Qc) (logged : Z) (p : Full.Page Qc) :
  Full.joystickLogRef p = {| Full.t := logged; Full.lin := l; Full.ang := a |} ->
  (clock (Full.world p) - logged <= 100)%Z ->
  Full.terminalOutput (Full.handleJoystickMove l a p) = Full.terminalOutput p
  /\ Full.joystickLogRef (Full.handleJoystickMove l a p) = Full.joystickLogRef p.
Proof.
  intros R T. unfold Full.handleJoystickMove. cbv zeta.
  destruct (publishTwist_frame l a (Full.world p)) as (C & _). cbv zeta in C.
  cbn [Full.world Full.set_world Full.joystickLogRef]. rewrite R, C.
  cbn [Full.t Full.lin Full.ang Full.sub Full.exact_more Math_abs exact lit_0_01].
  replace (l - l) with (Q2Qc 0) by ring. replace (a - a) with (Q2Qc 0) by ring.
  destruct (Z.ltb_spec 100 (clock (Full.world p) - logged)) as [G | _]; [ lia | ].
  cbn. rewrite R. auto.
Qed.

(** Holding the joystick at one command writes at most one line per
    100 ms: when the command is handled again and again at clock readings
    within 100 ms of a time [t0], the terminal gains at most one line,
    while with a topic every one of the commands is published. *)
Theorem held_command_logs_at_most_one_line
    (l a : Qc) (t0 : Z) (readings : list N) (p : Full.Page Qc) :
  Forall (fun t => (t0 <= Z.of_N t <= t0 + 100)%Z) readings ->
  (exists new,
      Full.terminalOutput (hold l a readings p) = (Full.terminalOutput p ++ new)%list
      /\ (List.length new <= 1)%nat)
  /\ (cmdVelRef (Full.world p) <> None ->
      List.length (outbox (Full.world (hold l a readings p)))
      = (List.length readings + List.length (outbox (Full.world p)))%nat).
Proof.
  intros W.
  assert (forall q : Full.Page Qc,
             (Full.terminalOutput q = Full.terminalOutput p
              \/ exists line logged,
                  Full.terminalOutput q = (Full.terminalOutput p ++ [line])%list
                  /\ Full.joystickLogRef q
                     = {| Full.t := logged; Full.lin := l; Full.ang := a |}
                  /\ (t0 <= logged)%Z) ->
             (Full.terminalOutput (hold l a readings q) = Full.terminalOutput p
              \/ exists line,
                  Full.terminalOutput (hold l a readings q)
                  = (Full.terminalOutput p ++ [line])%list)
             /\ (cmdVelRef (Full.world q) <> None ->
                 List.length (outbox (Full.world (hold l a readings q)))
                 = (List.length readings + List.length (outbox (Full.world q)))%nat))
    as K.
  { induction readings as [| t ts IH]; intros q J.
    - split; [ | reflexivity ]. destruct J as [J | (line & _ & J & _)]; eauto.
    - inversion W as [| ? ? Wt Wts]; subst. cbn [hold fold_left].
      set (q1 := Full.set_world (set_clock (Z.of_N t) (Full.world q)) q).
      fold (hold l a ts (Full.handleJoystickMove l a q1)).
      destruct (handleJoystickMove_cases l a q1) as (Wo & Cs). cbv zeta in Wo, Cs.
      destruct (IH Wts (Full.handleJoystickMove l a q1)) as [T O].
      + destruct J as [J | (line & logged & J & R & G)].
        * destruct Cs as [[E _] | [E R]].
          -- left. rewrite E. exact J.
          -- right. eexists. eexists. rewrite E. split; [ now rewrite <- J | ].
             split; [ exact R | cbn; lia ].
        * destruct (handleJoystickMove_quiet l a logged q1 R) as [E R'];
            [ cbn; lia | ].
          right. exists line, logged. rewrite E, R'. auto.
      + split; [ exact T | ]. intros C. rewrite O.
        * rewrite Wo. unfold publishTwist. cbn [cmdVelRef q1 Full.world Full.set_world set_clock].
          destruct (cmdVelRef (Full.world q)); [ cbn; lia | now elim C ].
        * rewrite Wo. destruct (publishTwist_frame l a (Full.world q1)) as (_ & -> & _).
          exact C. }
  destruct (K p (or_introl eq_refl)) as [[T | [line T]] O].
  - split; [ exists nil; rewrite T, app_nil_r; auto | exact O ].
  - split; [ exists (line :: nil); rewrite T; auto | exact O ].
Qed.
End LogThrottle.

Lemma held_command_logs_at_most_one_line_witness :
  (List.length
     (Full.terminalOutput
        (hold (Q2Qc (1 # 4)) 0%Qc [1000; 1030; 1060; 1090]%N Full.initial)) <= 2)%nat.
Proof.
  destruct (held_command_logs_at_most_one_line (Q2Qc (1 # 4)) 0%Qc 1000
              [1000; 1030; 1060; 1090]%N Full.initial) as [(new & E & L) _].
  - repeat constructor; cbn; lia.
  - rewrite E, length_app. cbn. lia.
Defined.
